(** * CodeCompanion server: conversation store and message exchange

    A shallow embedding of [server.js]: the persistence helpers [loadDb] and
    [saveDb], the five conversation routes and the message route that relays
    a turn to the completion service.

    Conventions of the embedding.
    - A JavaScript string is a [string]; one unit of [length] and [slice] is
      one character of it.
    - A value that came out of [JSON.parse] is a [json] tree; [undefined] is
      [None] of [option json].  Numbers are integers: floating point is not
      modelled.
    - The file [db.json] and the counter of [writeFileSync] calls make up the
      [World]; every route is a function from the world (and what the
      request, the clock, the environment and the completion service supply)
      to a response and the world after it.  Writes to the file are taken to
      succeed.
    - What Node provides and the repository only calls ([JSON.stringify],
      [JSON.parse], [Date.prototype.toISOString], the [Date] constructor on a
      string) is the interface [Runtime]; a concrete instance, with the text
      format of [JSON.stringify (data, null, 2)], is given below and proved
      to satisfy the one law the proofs use.
    - The routes read the document through the record types [Conversation]
      and [Message]; on a document that is not of that shape the embedding
      stops with [Stuck] and says nothing further. *)

From Stdlib Require Import ZArith List String Ascii Bool Lia.
From Stdlib Require Import Permutation Sorted.
From Stdlib Require Import DecimalString DecimalZ DecimalPos.
Import ListNotations.

Local Open Scope string_scope.
Local Open Scope list_scope.
Local Open Scope Z_scope.

(* ================================================================== *)
(** * JavaScript values *)

#[local] Unset Elimination Schemes.
Inductive json : Type :=
| JNull
| JBool (b : bool)
| JNum (n : Z)
| JStr (s : string)
| JArr (items : list json)
| JObj (props : list (string * json)).
#[local] Set Elimination Schemes.

(** Induction on documents, with the property on every element of an array
    and on every value of an object. *)
Fixpoint json_ind (P : json -> Prop)
  (HNull : P JNull) (HBool : forall b, P (JBool b)) (HNum : forall n, P (JNum n))
  (HStr : forall s, P (JStr s))
  (HArr : forall items, Forall P items -> P (JArr items))
  (HObj : forall props, Forall (fun kv => P (snd kv)) props -> P (JObj props))
  (j : json) {struct j} : P j :=
  let rec := json_ind P HNull HBool HNum HStr HArr HObj in
  match j with
  | JNull => HNull
  | JBool b => HBool b
  | JNum n => HNum n
  | JStr s => HStr s
  | JArr items =>
      HArr items
        ((fix all (l : list json) : Forall P l :=
            match l with
            | [] => Forall_nil P
            | x :: r => Forall_cons x (rec x) (all r)
            end) items)
  | JObj props =>
      HObj props
        ((fix all (l : list (string * json)) : Forall (fun kv => P (snd kv)) l :=
            match l with
            | [] => Forall_nil _
            | kv :: r => Forall_cons kv (rec (snd kv)) (all r)
            end) props)
  end.

(** [n.toString()] of an integer: decimal digits, [-] in front of a negative
    one. *)
Definition Number_toString (n : Z) : string :=
  NilZero.string_of_int (Z.to_int n).

(** [separator.join] over strings. *)
Fixpoint join (sep : string) (l : list string) : string :=
  match l with
  | [] => ""
  | [x] => x
  | x :: r => (x ++ sep ++ join sep r)%string
  end.

(** [String(v)], the conversion [new Error(v)] applies to its argument. *)
Fixpoint ToString (v : json) : string :=
  match v with
  | JNull => "null"
  | JBool true => "true"
  | JBool false => "false"
  | JNum n => Number_toString n
  | JStr s => s
  | JArr items =>
      join "," (map (fun x => match x with JNull => "" | _ => ToString x end) items)
  | JObj _ => "[object Object]"
  end.

(** [!!v] on a defined value. *)
Definition truthy (v : json) : bool :=
  match v with
  | JNull => false
  | JBool b => b
  | JNum n => negb (n =? 0)
  | JStr s => negb (s =? "")%string
  | JArr _ | JObj _ => true
  end.

(** The own property [k] of an object literal; of two bindings of one key the
    later one counts, as in [JSON.parse]. *)
Fixpoint lookup (k : string) (props : list (string * json)) : option json :=
  match props with
  | [] => None
  | (k', v) :: r =>
      match lookup k r with
      | Some v' => Some v'
      | None => if (k' =? k)%string then Some v else None
      end
  end.

(** What a [try] block computes: a value, or the error it throws. *)
Inductive Failure : Type :=
| MissingApiKey                      (* new Error('Missing API Key') *)
| FetchFailed (reason : string)      (* fetch rejected: no response at all *)
| InvalidBody (reason : string)      (* response.json() rejected *)
| ApiError (message : string)        (* new Error(data.error?.message || 'API Error') *)
| TypeError.                         (* property read on undefined or null *)

Inductive outcome (A : Type) : Type :=
| Returned (a : A)
| Thrown (e : Failure).

Arguments Returned {A} a.
Arguments Thrown {A} e.

Definition bind {A B : Type} (m : outcome A) (k : A -> outcome B) : outcome B :=
  match m with
  | Returned a => k a
  | Thrown e => Thrown e
  end.

Notation "x <- m ;; k" := (bind m (fun x => k))
  (at level 61, m at next level, right associativity).

(** [v.k] for a name [k] that is neither an index nor a built-in property:
    a [TypeError] on [undefined] and [null], the own property of an object,
    [undefined] on everything else. *)
Definition member (v : option json) (k : string) : outcome (option json) :=
  match v with
  | None | Some JNull => Thrown TypeError
  | Some (JObj props) => Returned (lookup k props)
  | Some _ => Returned None
  end.

(** [v[0]]: the first element of an array, the first character of a string,
    the property ["0"] of an object. *)
Definition first (v : option json) : outcome (option json) :=
  match v with
  | None | Some JNull => Thrown TypeError
  | Some (JArr items) => Returned (hd_error items)
  | Some (JStr (String c _)) => Returned (Some (JStr (String c "")))
  | Some (JObj props) => Returned (lookup "0" props)
  | Some _ => Returned None
  end.

(** [v?.k]: [undefined] where [v] is [undefined] or [null]. *)
Definition optional_member (v : option json) (k : string) : option json :=
  match v with
  | Some (JObj props) => lookup k props
  | _ => None
  end.

(** [Array.prototype.sort (comparefn)]: the sort is stable, and a [NaN] from
    the comparison counts as [+0].  On a comparison that orders the elements
    consistently every stable sort gives this list. *)
Section ArraySort.

Context {A : Type} (comparefn : A -> A -> option Z).

Definition SortCompare (x y : A) : Z :=
  match comparefn x y with
  | Some v => v
  | None => 0
  end.

Fixpoint insert (x : A) (l : list A) : list A :=
  match l with
  | [] => [x]
  | y :: r => if SortCompare x y <=? 0 then x :: l else y :: insert x r
  end.

Definition Array_sort (l : list A) : list A := fold_right insert [] l.

End ArraySort.

(** The order of a list whose keys do not grow. *)
Definition descending {A : Type} (key : A -> Z) (a b : A) : Prop := key b <= key a.

(** [s.slice(0, n)]. *)
Definition slice0 (n : nat) (s : string) : string := substring 0 n s.

(* ================================================================== *)
(** * The runtime the server calls *)

Class Runtime : Type := {
  (** [JSON.stringify (data, null, 2)] *)
  JSON_stringify : json -> string;
  (** [JSON.parse (text)], [None] where it throws a [SyntaxError] *)
  JSON_parse : string -> option json;
  (** [new Date (t).toISOString ()] for the clock reading [t] *)
  toISOString : Z -> string;
  (** the time value of [new Date (text)], [None] for an invalid date *)
  Date_value : string -> option Z
}.

(** A document written by [JSON.stringify] is read back by [JSON.parse]. *)
Class JSONLaws (R : Runtime) : Prop := {
  parse_stringify : forall j : json, JSON_parse (JSON_stringify j) = Some j
}.

(* ================================================================== *)
(** * The data model *)

Inductive Role : Type := user | assistant.

Record Message : Type := {
  role : Role;
  content : option json
}.

Record Conversation : Type := {
  id : string;
  title : string;
  messages : list Message;
  createdAt : string;
  updatedAt : string
}.

Record Db : Type := { conversations : list Conversation }.

Module Summary.
Record t : Type := { id : string; title : string; updatedAt : string }.
End Summary.

(** Assignments through the reference [conv]. *)
Definition set_title (t : string) (c : Conversation) : Conversation :=
  {| id := id c; title := t; messages := messages c;
     createdAt := createdAt c; updatedAt := updatedAt c |}.

Definition set_updatedAt (t : string) (c : Conversation) : Conversation :=
  {| id := id c; title := title c; messages := messages c;
     createdAt := createdAt c; updatedAt := t |}.

Definition push (m : Message) (c : Conversation) : Conversation :=
  {| id := id c; title := title c; messages := messages c ++ [m];
     createdAt := createdAt c; updatedAt := updatedAt c |}.

(** [db.conversations.find (c => c.id === i)] *)
Definition find_conversation (i : string) (db : Db) : option Conversation :=
  List.find (fun c => (id c =? i)%string) (conversations db).

(** The store after the object [find] returned for [i] has been mutated by
    [f]: the first conversation with that id is the one that changes. *)
Fixpoint mutate_first (i : string) (f : Conversation -> Conversation)
  (l : list Conversation) : list Conversation :=
  match l with
  | [] => []
  | c :: r => if (id c =? i)%string then f c :: r else c :: mutate_first i f r
  end.

Definition mutate (i : string) (f : Conversation -> Conversation) (db : Db) : Db :=
  {| conversations := mutate_first i f (conversations db) |}.

(** [l.filter (c => c.id !== i)]: the conversations of another id. *)
Definition without (i : string) (l : list Conversation) : list Conversation :=
  filter (fun c => negb (id c =? i)%string) l.

(** How many conversations hold the id [i]. *)
Definition held (i : string) (l : list Conversation) : nat :=
  List.length (filter (fun c => (id c =? i)%string) l).




(** ** The document of a store *)

Definition role_name (r : Role) : string :=
  match r with
  | user => "user"
  | assistant => "assistant"
  end.

(** A property whose value is [undefined] is left out by [JSON.stringify]. *)
Definition of_message (m : Message) : json :=
  JObj (("role", JStr (role_name (role m))) ::
        match content m with
        | Some v => [("content", v)]
        | None => []
        end).

Definition of_conversation (c : Conversation) : json :=
  JObj [("id", JStr (id c));
        ("title", JStr (title c));
        ("messages", JArr (map of_message (messages c)));
        ("createdAt", JStr (createdAt c));
        ("updatedAt", JStr (updatedAt c))].

Definition of_db (db : Db) : json :=
  JObj [("conversations", JArr (map of_conversation (conversations db)))].

(** Reading a document as a store. *)
Fixpoint traverse {A B : Type} (f : A -> option B) (l : list A) : option (list B) :=
  match l with
  | [] => Some []
  | x :: r =>
      match f x, traverse f r with
      | Some y, Some ys => Some (y :: ys)
      | _, _ => None
      end
  end.

Definition as_string (v : option json) : option string :=
  match v with
  | Some (JStr s) => Some s
  | _ => None
  end.

Definition as_array (v : option json) : option (list json) :=
  match v with
  | Some (JArr l) => Some l
  | _ => None
  end.

Definition as_role (v : option json) : option Role :=
  match v with
  | Some (JStr s) =>
      if (s =? "user")%string then Some user
      else if (s =? "assistant")%string then Some assistant
      else None
  | _ => None
  end.

Definition as_message (j : json) : option Message :=
  match j with
  | JObj props =>
      match as_role (lookup "role" props) with
      | Some r => Some {| role := r; content := lookup "content" props |}
      | None => None
      end
  | _ => None
  end.

Definition as_conversation (j : json) : option Conversation :=
  match j with
  | JObj props =>
      match as_string (lookup "id" props), as_string (lookup "title" props),
            as_array (lookup "messages" props),
            as_string (lookup "createdAt" props),
            as_string (lookup "updatedAt" props) with
      | Some i, Some t, Some ms, Some ca, Some ua =>
          match traverse as_message ms with
          | Some ms' =>
              Some {| id := i; title := t; messages := ms';
                      createdAt := ca; updatedAt := ua |}
          | None => None
          end
      | _, _, _, _, _ => None
      end
  | _ => None
  end.

Definition as_db (j : json) : option Db :=
  match j with
  | JObj props =>
      match as_array (lookup "conversations" props) with
      | Some cs =>
          match traverse as_conversation cs with
          | Some cs' => Some {| conversations := cs' |}
          | None => None
          end
      | None => None
      end
  | _ => None
  end.

(* ================================================================== *)
(** * The world: [db.json] *)

Inductive DbFile : Type :=
| Missing                     (* fs.existsSync (DB_FILE) is false *)
| Unreadable                  (* the file exists, fs.readFileSync throws *)
| Text (text : string).       (* the file holds [text] *)

Record World : Type := {
  db_file : DbFile;
  writes : nat                (* calls of fs.writeFileSync so far *)
}.

Definition existsSync (w : World) : bool :=
  match db_file w with
  | Missing => false
  | _ => true
  end.

Definition readFileSync (w : World) : option string :=
  match db_file w with
  | Text s => Some s
  | _ => None
  end.

Definition writeFileSync (text : string) (w : World) : World :=
  {| db_file := Text text; writes := S (writes w) |}.

(** What the completion service answers to one request. *)
Inductive FetchResult : Type :=
| Rejected (reason : string)                 (* fetch throws *)
| Responded (ok : bool) (body : string + json).
                 (* response.ok, and what response.json () resolves to:
                    the parsed body, or the reason it rejects with *)

(** What a route sends. *)
Inductive Response : Type :=
| SummariesJson (l : list Summary.t)
| ConversationJson (c : Conversation)
| SuccessJson                                 (* { success: true } *)
| ReplyJson (content : option json) (conversationId title : string)
                                              (* role: 'assistant' *)
| BadRequest                                  (* 400 *)
| NotFound                                    (* 404 *)
| InternalError (cause : Failure)             (* 500, error: error.message *)
| Stuck.                                      (* the document is not a store *)

(** The answers with a status of 400 and above, and [Stuck]. *)
Definition is_error (r : Response) : bool :=
  match r with
  | BadRequest | NotFound | InternalError _ | Stuck => true
  | _ => false
  end.

(** A request to one of the six routes, with what the clock, the
    environment and the completion service supply while it is served. *)
Inductive Request : Type :=
| GET_conversations
| GET_conversation (i : string)
| POST_conversation (t_id t_created t_updated : Z)
| PUT_conversation (now : Z) (i : string) (new_title : option string)
| DELETE_conversation (i : string)
| POST_message (apiKey : option string) (fetch : list Message -> FetchResult)
    (now : Z) (i : string) (message : option string).

(** The clock readings that a request turns into [createdAt] and
    [updatedAt] texts. *)
Definition timestamps (r : Request) : list Z :=
  match r with
  | POST_conversation _ t_created t_updated => [t_created; t_updated]
  | PUT_conversation now _ _ => [now]
  | POST_message _ _ now _ _ => [now]
  | GET_conversations | GET_conversation _ | DELETE_conversation _ => []
  end.

(* ================================================================== *)
(** * The server *)

Section Server.

Context {R : Runtime}.

(** ** Persistence helpers *)

Definition empty_document : json := JObj [("conversations", JArr [])].

Definition loadDb (w : World) : json :=
  if negb (existsSync w) then empty_document
  else
    match readFileSync w with
    | None => empty_document
    | Some text =>
        match JSON_parse text with
        | Some data => data
        | None => empty_document
        end
    end.

Definition saveDb (data : json) (w : World) : World :=
  writeFileSync (JSON_stringify data) w.

(** The store a route works on after [const db = loadDb ()]. *)
Definition load_store (w : World) : option Db := as_db (loadDb w).

Definition save_store (db : Db) (w : World) : World := saveDb (of_db db) w.

(** ** 1. GET /api/conversations *)

Definition summary (c : Conversation) : Summary.t :=
  {| Summary.id := id c; Summary.title := title c;
     Summary.updatedAt := updatedAt c |}.

(** [(a, b) => new Date (b.updatedAt) - new Date (a.updatedAt)] *)
Definition by_recency (a b : Summary.t) : option Z :=
  match Date_value (Summary.updatedAt b), Date_value (Summary.updatedAt a) with
  | Some tb, Some ta => Some (tb - ta)
  | _, _ => None
  end.

Definition get_conversations (w : World) : Response * World :=
  match load_store w with
  | None => (Stuck, w)
  | Some db =>
      let summaries := Array_sort by_recency (map summary (conversations db)) in
      (SummariesJson summaries, w)
  end.

(** ** 2. GET /api/conversations/:id *)

Definition get_conversation (i : string) (w : World) : Response * World :=
  match load_store w with
  | None => (Stuck, w)
  | Some db =>
      match find_conversation i db with
      | None => (NotFound, w)
      | Some conversation => (ConversationJson conversation, w)
      end
  end.

(** ** 3. POST /api/conversations

    The clock is read three times: [Date.now ()] for the id, [new Date ()]
    for [createdAt] and again for [updatedAt]. *)

Definition newConv (t_id t_created t_updated : Z) : Conversation :=
  {| id := Number_toString t_id;
     title := "New Chat";
     messages := [];
     createdAt := toISOString t_created;
     updatedAt := toISOString t_updated |}.

Definition post_conversation (t_id t_created t_updated : Z) (w : World)
  : Response * World :=
  match load_store w with
  | None => (Stuck, w)
  | Some db =>
      let c := newConv t_id t_created t_updated in
      let db' := {| conversations := conversations db ++ [c] |} in
      (ConversationJson c, save_store db' w)
  end.

(** ** 4. PUT /api/conversations/:id

    [new_title] is [req.body.title]: absent, or a string. *)

Definition put_conversation (now : Z) (i : string) (new_title : option string)
  (w : World) : Response * World :=
  match load_store w with
  | None => (Stuck, w)
  | Some db =>
      match find_conversation i db with
      | None => (NotFound, w)
      | Some conv =>
          match new_title with
          | Some (String _ _ as t) =>
              let change c := set_updatedAt (toISOString now) (set_title t c) in
              (ConversationJson (change conv), save_store (mutate i change db) w)
          | _ => (ConversationJson conv, w)
          end
      end
  end.

(** ** 5. DELETE /api/conversations/:id *)

Definition delete_conversation (i : string) (w : World) : Response * World :=
  match load_store w with
  | None => (Stuck, w)
  | Some db =>
      let initialLength := List.length (conversations db) in
      let kept := without i (conversations db) in
      if (List.length kept =? initialLength)%nat then (NotFound, w)
      else (SuccessJson, save_store {| conversations := kept |} w)
  end.

(** ** 6. POST /api/conversations/:id/message *)

Definition userMsg (message : string) : Message :=
  {| role := user; content := Some (JStr message) |}.

(** The title made from the first message. *)
Definition derived_title (message : string) : string :=
  (slice0 30 message ++ (if (30 <? String.length message)%nat then "..." else ""))%string.

Definition auto_title (message : string) (c : Conversation) : Conversation :=
  if ((List.length (messages c) =? 1)%nat && (title c =? "New Chat")%string)%bool
  then set_title (derived_title message) c
  else c.

(** The body of the [try] block up to [assistantText]; [fetch] stands for the
    service, asked with the full history. *)
Definition completion (apiKey : option string)
  (fetch : list Message -> FetchResult) (history : list Message)
  : outcome (option json) :=
  match apiKey with
  | None | Some "" => Thrown MissingApiKey
  | Some _ =>
      match fetch history with
      | Rejected reason => Thrown (FetchFailed reason)
      | Responded _ (inl reason) => Thrown (InvalidBody reason)
      | Responded ok (inr data) =>
          if negb ok then
            e <- member (Some data) "error" ;;
            let m := optional_member e "message" in
            Thrown (ApiError (match m with
                              | Some v => if truthy v then ToString v else "API Error"
                              | None => "API Error"
                              end))
          else
            c <- member (Some data) "content" ;;
            c0 <- first c ;;
            member c0 "text"
      end
  end.

(** The conversation in memory when the service is asked: the message is
    pushed, and the title derived if this is the first message of a
    conversation still called "New Chat". *)
Definition asked (message : string) (conv : Conversation) : Conversation :=
  auto_title message (push (userMsg message) conv).

(** The conversation that is saved after the answer [text]. *)
Definition answered (now : Z) (message : string) (text : option json)
  (conv : Conversation) : Conversation :=
  set_updatedAt (toISOString now)
    (push {| role := assistant; content := text |} (asked message conv)).

Definition post_message (apiKey : option string)
  (fetch : list Message -> FetchResult) (now : Z)
  (conversationId : string) (message : option string) (w : World)
  : Response * World :=
  match message with
  | None | Some "" => (BadRequest, w)
  | Some message =>
      match load_store w with
      | None => (Stuck, w)
      | Some db =>
          match find_conversation conversationId db with
          | None => (NotFound, w)
          | Some conv =>
              match completion apiKey fetch (messages (asked message conv)) with
              | Thrown error => (InternalError error, w)
              | Returned assistantText =>
                  let conv' := answered now message assistantText conv in
                  let db' := mutate conversationId (fun _ => conv') db in
                  (ReplyJson assistantText (id conv') (title conv'),
                   save_store db' w)
              end
          end
      end
  end.

(** ** Sequences of requests *)

(** The id in the answer to a POST /api/conversations. *)
Definition created_id (r : Response) : option string :=
  match r with
  | ConversationJson c => Some (id c)
  | _ => None
  end.

(** POST /api/conversations once for every entry of [clock], the three clock
    readings of that request. *)
Fixpoint post_conversations (clock : list (Z * Z * Z)) (w : World)
  : list Response * World :=
  match clock with
  | [] => ([], w)
  | (t_id, t_created, t_updated) :: later =>
      let (r, w1) := post_conversation t_id t_created t_updated w in
      let (rs, w2) := post_conversations later w1 in
      (r :: rs, w2)
  end.

(** One request to the message route, with what its environment supplies. *)
Record Turn : Type := {
  turn_apiKey : option string;
  turn_fetch : list Message -> FetchResult;
  turn_now : Z;
  turn_id : string;
  turn_message : option string
}.

Definition submit (t : Turn) (w : World) : Response * World :=
  post_message (turn_apiKey t) (turn_fetch t) (turn_now t) (turn_id t)
    (turn_message t) w.

Definition submit_all (ts : list Turn) (w : World) : World :=
  fold_left (fun w' t => snd (submit t w')) ts w.

(** A conversation whose [updatedAt] is the text of a time. *)
Definition dated (c : Conversation) : Prop := Date_value (updatedAt c) <> None.

(** The time value the summaries are ordered by. *)
Definition time_of (s : Summary.t) : Z :=
  match Date_value (Summary.updatedAt s) with
  | Some t => t
  | None => 0
  end.

(** ** The application: one request, and a sequence of requests *)

Definition handle (r : Request) (w : World) : Response * World :=
  match r with
  | GET_conversations => get_conversations w
  | GET_conversation i => get_conversation i w
  | POST_conversation t_id t_created t_updated =>
      post_conversation t_id t_created t_updated w
  | PUT_conversation now i new_title => put_conversation now i new_title w
  | DELETE_conversation i => delete_conversation i w
  | POST_message apiKey fetch now i message =>
      post_message apiKey fetch now i message w
  end.



End Server.

(* ================================================================== *)
(** * A concrete runtime

    [JSON.stringify (data, null, 2)] and [JSON.parse] on texts, as lists of
    characters, and the ISO format of time values. *)

Module Node.

Definition LF : ascii := "010"%char.
Definition CR : ascii := "013"%char.
Definition TAB : ascii := "009"%char.
Definition quote : ascii := "034"%char.
Definition backslash : ascii := "\"%char.

Definition chars (s : string) : list ascii := list_ascii_of_string s.

(** ** Writing *)

Definition hex_digit (n : N) : ascii :=
  ascii_of_N (if (n <? 10)%N then 48 + n else 87 + n).

(** QuoteJSONString, one character. *)
Definition escape (c : ascii) : list ascii :=
  let n := N_of_ascii c in
  if (n =? 34)%N then [backslash; quote]
  else if (n =? 92)%N then [backslash; backslash]
  else if (n =? 8)%N then [backslash; "b"%char]
  else if (n =? 12)%N then [backslash; "f"%char]
  else if (n =? 10)%N then [backslash; "n"%char]
  else if (n =? 13)%N then [backslash; "r"%char]
  else if (n =? 9)%N then [backslash; "t"%char]
  else if (n <? 32)%N then
    [backslash; "u"%char; "0"%char; "0"%char;
     hex_digit (n / 16); hex_digit (n mod 16)]
  else [c].

Fixpoint escape_all (s : string) : list ascii :=
  match s with
  | EmptyString => []
  | String c r => escape c ++ escape_all r
  end.

Definition quoted (s : string) : list ascii :=
  quote :: escape_all s ++ [quote].

(** The elements after the first one of an array or object: each on a line
    of its own, behind a comma. *)
Fixpoint print_more {A : Type} (p : A -> list ascii) (inner : list ascii)
  (l : list A) : list ascii :=
  match l with
  | [] => []
  | y :: r => ","%char :: LF :: inner ++ p y ++ print_more p inner r
  end.

Definition print_block {A : Type} (opening closing : ascii)
  (p : A -> list ascii) (indent inner : list ascii) (l : list A) : list ascii :=
  match l with
  | [] => [opening; closing]
  | x :: r =>
      opening :: LF :: inner ++ p x ++ print_more p inner r
        ++ LF :: indent ++ [closing]
  end.

(** SerializeJSONProperty with a gap of two spaces, at indentation [indent]. *)
Fixpoint print (indent : list ascii) (j : json) : list ascii :=
  match j with
  | JNull => chars "null"
  | JBool true => chars "true"
  | JBool false => chars "false"
  | JNum n => chars (Number_toString n)
  | JStr s => quoted s
  | JArr items =>
      let inner := indent ++ chars "  " in
      print_block "["%char "]"%char (print inner) indent inner items
  | JObj props =>
      let inner := indent ++ chars "  " in
      print_block "{"%char "}"%char
        (fun kv => quoted (fst kv) ++ chars ": " ++ print inner (snd kv))
        indent inner props
  end.

Definition stringify (j : json) : string := string_of_list_ascii (print [] j).

(** ** Reading *)

Definition is_ws (c : ascii) : bool :=
  ((c =? " ") || (c =? LF) || (c =? CR) || (c =? TAB))%char.

Fixpoint skip_ws (s : list ascii) : list ascii :=
  match s with
  | [] => []
  | c :: r => if is_ws c then skip_ws r else s
  end.

Definition hex_value (c : ascii) : option N :=
  let n := N_of_ascii c in
  if ((48 <=? n) && (n <=? 57))%N then Some (n - 48)%N
  else if ((97 <=? n) && (n <=? 102))%N then Some (n - 87)%N
  else if ((65 <=? n) && (n <=? 70))%N then Some (n - 55)%N
  else None.

(** The character a backslash and one more character stand for. *)
Definition simple_escape (e : ascii) : option ascii :=
  if (e =? quote)%char then Some quote
  else if (e =? backslash)%char then Some backslash
  else if (e =? "/")%char then Some "/"%char
  else if (e =? "b")%char then Some "008"%char
  else if (e =? "f")%char then Some "012"%char
  else if (e =? "n")%char then Some LF
  else if (e =? "r")%char then Some CR
  else if (e =? "t")%char then Some TAB
  else None.

(** A string literal after its opening quote; an escape [\uXXXX] above the
    characters of [string] is not read. *)
Fixpoint parse_chars (s : list ascii) : option (string * list ascii) :=
  let continue c r :=
    match parse_chars r with
    | Some (t, rest) => Some (String c t, rest)
    | None => None
    end in
  match s with
  | [] => None
  | c :: r =>
      if (c =? quote)%char then Some (EmptyString, r)
      else if (c =? backslash)%char then
        match r with
        | [] => None
        | e :: r1 =>
            if (e =? "u")%char then
              match r1 with
              | h1 :: h2 :: h3 :: h4 :: r2 =>
                  match hex_value h1, hex_value h2, hex_value h3, hex_value h4 with
                  | Some 0%N, Some 0%N, Some a, Some b =>
                      continue (ascii_of_N (16 * a + b)) r2
                  | _, _, _, _ => None
                  end
              | _ => None
              end
            else
              match simple_escape e with
              | Some c' => continue c' r1
              | None => None
              end
        end
      else if (N_of_ascii c <? 32)%N then None
      else continue c r
  end.

Definition is_digit (c : ascii) : bool :=
  ((48 <=? N_of_ascii c) && (N_of_ascii c <=? 57))%N.

Definition is_num_char (c : ascii) : bool := ((c =? "-")%char || is_digit c)%bool.

Fixpoint span_num (s : list ascii) : list ascii * list ascii :=
  match s with
  | [] => ([], [])
  | c :: r =>
      if is_num_char c then let (tok, rest) := span_num r in (c :: tok, rest)
      else ([], s)
  end.

(** An integer literal: [-]? then [0] or a digit sequence without a leading
    zero. *)
Definition parse_number (s : list ascii) : option (json * list ascii) :=
  let (tok, rest) := span_num s in
  let text := string_of_list_ascii tok in
  match NilZero.int_of_string text with
  | Some d =>
      let n := Z.of_int d in
      if ((Number_toString n =? text) || (text =? "-0"))%string
      then Some (JNum n, rest)
      else None
  | None => None
  end.

(** [s] without the keyword [kw] in front. *)
Fixpoint strip (kw s : list ascii) : option (list ascii) :=
  match kw, s with
  | [], _ => Some s
  | k :: kw', c :: r => if (k =? c)%char then strip kw' r else None
  | _ :: _, [] => None
  end.

Definition keyword (kw : string) (v : json) (s : list ascii)
  : option (json * list ascii) :=
  match strip (chars kw) s with
  | Some r => Some (v, r)
  | None => None
  end.

Fixpoint parse_value (fuel : nat) (s : list ascii) : option (json * list ascii) :=
  match fuel with
  | O => None
  | S fuel' =>
      match skip_ws s with
      | [] => None
      | c :: r =>
          if (c =? "n")%char then keyword "null" JNull (c :: r)
          else if (c =? "t")%char then keyword "true" (JBool true) (c :: r)
          else if (c =? "f")%char then keyword "false" (JBool false) (c :: r)
          else if (c =? quote)%char then
            match parse_chars r with
            | Some (t, rest) => Some (JStr t, rest)
            | None => None
            end
          else if (c =? "[")%char then
            match skip_ws r with
            | c' :: r' =>
                if (c' =? "]")%char then Some (JArr [], r')
                else
                  match parse_items fuel' (c' :: r') with
                  | Some (l, rest) => Some (JArr l, rest)
                  | None => None
                  end
            | [] => None
            end
          else if (c =? "{")%char then
            match skip_ws r with
            | c' :: r' =>
                if (c' =? "}")%char then Some (JObj [], r')
                else
                  match parse_props fuel' (c' :: r') with
                  | Some (l, rest) => Some (JObj l, rest)
                  | None => None
                  end
            | [] => None
            end
          else if is_num_char c then parse_number (c :: r)
          else None
      end
  end

with parse_items (fuel : nat) (s : list ascii) : option (list json * list ascii) :=
  match fuel with
  | O => None
  | S fuel' =>
      match parse_value fuel' s with
      | Some (v, r) =>
          match skip_ws r with
          | c :: r' =>
              if (c =? ",")%char then
                match parse_items fuel' r' with
                | Some (vs, rest) => Some (v :: vs, rest)
                | None => None
                end
              else if (c =? "]")%char then Some ([v], r')
              else None
          | [] => None
          end
      | None => None
      end
  end

with parse_props (fuel : nat) (s : list ascii)
  : option (list (string * json) * list ascii) :=
  match fuel with
  | O => None
  | S fuel' =>
      match skip_ws s with
      | c :: r =>
          if (c =? quote)%char then
            match parse_chars r with
            | Some (k, r1) =>
                match skip_ws r1 with
                | c1 :: r2 =>
                    if (c1 =? ":")%char then
                      match parse_value fuel' r2 with
                      | Some (v, r3) =>
                          match skip_ws r3 with
                          | c3 :: r4 =>
                              if (c3 =? ",")%char then
                                match parse_props fuel' r4 with
                                | Some (ps, rest) => Some ((k, v) :: ps, rest)
                                | None => None
                                end
                              else if (c3 =? "}")%char then Some ([(k, v)], r4)
                              else None
                          | [] => None
                          end
                      | None => None
                      end
                    else None
                | [] => None
                end
            | None => None
            end
          else None
      | [] => None
      end
  end.

Definition parse (text : string) : option json :=
  match parse_value (S (String.length text)) (chars text) with
  | Some (j, rest) =>
      match skip_ws rest with
      | [] => Some j
      | _ :: _ => None
      end
  | None => None
  end.

(** ** Dates

    The proleptic Gregorian calendar by days since 1970-01-01, and the text
    [YYYY-MM-DDTHH:mm:ss.sssZ] of a time value in milliseconds. *)

Definition civil_from_days (days : Z) : Z * Z * Z :=
  let z := days + 719468 in
  let era := z / 146097 in
  let doe := z mod 146097 in
  let yoe := (doe - doe / 1460 + doe / 36524 - doe / 146096) / 365 in
  let doy := doe - (365 * yoe + yoe / 4 - yoe / 100) in
  let mp := (5 * doy + 2) / 153 in
  let d := doy - (153 * mp + 2) / 5 + 1 in
  let m := if mp <? 10 then mp + 3 else mp - 9 in
  let y := yoe + era * 400 + (if m <=? 2 then 1 else 0) in
  (y, m, d).

Definition days_from_civil (y m d : Z) : Z :=
  let y' := if m <=? 2 then y - 1 else y in
  let era := y' / 400 in
  let yoe := y' mod 400 in
  let mp := if 2 <? m then m - 3 else m + 9 in
  let doy := (153 * mp + 2) / 5 + d - 1 in
  let doe := yoe * 365 + yoe / 4 - yoe / 100 + doy in
  era * 146097 + doe - 719468.

(** [n], not negative, in [width] decimal digits. *)
Fixpoint padded (width : nat) (n : Z) : string :=
  match width with
  | O => EmptyString
  | S w =>
      (padded w (n / 10)
         ++ String (ascii_of_N (48 + Z.to_N (n mod 10))) EmptyString)%string
  end.

Definition iso_year (y : Z) : string :=
  if (0 <=? y) && (y <=? 9999) then padded 4 y
  else if y <? 0 then ("-" ++ padded 6 (- y))%string
  else ("+" ++ padded 6 y)%string.

Definition to_iso (t : Z) : string :=
  let '(y, m, d) := civil_from_days (t / 86400000) in
  let ms := t mod 86400000 in
  (iso_year y ++ "-" ++ padded 2 m ++ "-" ++ padded 2 d ++ "T"
     ++ padded 2 (ms / 3600000) ++ ":" ++ padded 2 (ms / 60000 mod 60) ++ ":"
     ++ padded 2 (ms / 1000 mod 60) ++ "." ++ padded 3 (ms mod 1000) ++ "Z")%string.

(** [width] digits in front of [s], as a number. *)
Fixpoint read_digits (width : nat) (acc : Z) (s : list ascii)
  : option (Z * list ascii) :=
  match width with
  | O => Some (acc, s)
  | S w =>
      match s with
      | c :: r =>
          if is_digit c
          then read_digits w (10 * acc + Z.of_N (N_of_ascii c - 48)) r
          else None
      | [] => None
      end
  end.

Definition read_year (s : list ascii) : option (Z * list ascii) :=
  match s with
  | c :: r =>
      if (c =? "+")%char then read_digits 6 0 r
      else if (c =? "-")%char then
        match read_digits 6 0 r with
        | Some (y, rest) => if y =? 0 then None else Some (- y, rest)
        | None => None
        end
      else read_digits 4 0 s
  | [] => None
  end.

Definition days_in_month (y m : Z) : Z :=
  days_from_civil (if m =? 12 then y + 1 else y) (if m =? 12 then 1 else m + 1) 1
    - days_from_civil y m 1.

(** The time value of a text in the format [to_iso] writes; another text is
    not recognised. *)
Definition of_iso (text : string) : option Z :=
  let field width sep s :=
    match read_digits width 0 s with
    | Some (n, c :: r) => if (c =? sep)%char then Some (n, r) else None
    | _ => None
    end in
  match read_year (chars text) with
  | Some (y, c :: s1) =>
      if negb (c =? "-")%char then None else
      match field 2%nat "-"%char s1 with
      | Some (m, s2) =>
          match field 2%nat "T"%char s2 with
          | Some (d, s3) =>
              match field 2%nat ":"%char s3 with
              | Some (h, s4) =>
                  match field 2%nat ":"%char s4 with
                  | Some (mi, s5) =>
                      match field 2%nat "."%char s5 with
                      | Some (sec, s6) =>
                          match field 3%nat "Z"%char s6 with
                          | Some (ms, []) =>
                              if (1 <=? m) && (m <=? 12) && (1 <=? d)
                                 && (d <=? days_in_month y m)
                                 && (h <=? 23) && (mi <=? 59) && (sec <=? 59)
                              then
                                let t := days_from_civil y m d * 86400000
                                         + h * 3600000 + mi * 60000
                                         + sec * 1000 + ms in
                                if Z.abs t <=? 8640000000000000 then Some t
                                else None
                              else None
                          | _ => None
                          end
                      | None => None
                      end
                  | None => None
                  end
              | None => None
              end
          | None => None
          end
      | None => None
      end
  | _ => None
  end.

(** ** What the proofs about reading measure *)

(** Only white space. *)
Definition blank (s : list ascii) : Prop := forallb is_ws s = true.

(** What may follow a number: not a character of a number. *)
Definition terminated (rest : list ascii) : Prop :=
  match rest with
  | [] => True
  | c :: _ => is_num_char c = false
  end.

(** Fuel that is enough to read a document. *)
Fixpoint weight (j : json) : nat :=
  match j with
  | JArr items => S (list_sum (map (fun x => S (weight x)) items))
  | JObj props => S (list_sum (map (fun kv => S (weight (snd kv))) props))
  | _ => 1%nat
  end.

(** The text of [j], at any indentation, behind white space and in front of
    anything that ends it, is read as [j]. *)
Definition reads_back (j : json) : Prop :=
  forall (fuel : nat) (indent pre rest : list ascii),
    (weight j <= fuel)%nat -> blank indent -> blank pre -> terminated rest ->
    parse_value fuel (pre ++ print indent j ++ rest) = Some (j, rest).

Definition runtime : Runtime :=
  {| JSON_stringify := stringify;
     JSON_parse := parse;
     toISOString := to_iso;
     Date_value := of_iso |}.

End Node.

(* ================================================================== *)
(** * Sample stores and services for runs on the concrete runtime *)

Module Runs.

(** No file yet. *)
Definition fresh : World := {| db_file := Missing; writes := 0 |}.

Definition chat (i t : string) (ms : list Message) (u : string) : Conversation :=
  {| id := i; title := t; messages := ms;
     createdAt := "2024-05-01T09:00:00.000Z"; updatedAt := u |}.

(** Three conversations, two of them updated at the same time. *)
Definition three : Db :=
  {| conversations :=
       [chat "1714554000000" "New Chat" [] "2024-05-01T09:00:00.000Z";
        chat "1714557600000" "Sorting in place"
          [userMsg "Sorting in place"; {| role := assistant; content := Some (JStr "Use sort.") |}]
          "2024-05-01T10:30:00.000Z";
        chat "1714561200000" "Closures"
          [userMsg "Closures"; {| role := assistant; content := Some (JStr "A closure is...") |}]
          "2024-05-01T09:00:00.000Z"] |}.

Definition saved (db : Db) : World := save_store (R := Node.runtime) db fresh.

(** A service that answers every request with [text]. *)
Definition answers (text : string) (_ : list Message) : FetchResult :=
  Responded true (inr (JObj [("content", JArr [JObj [("type", JStr "text"); ("text", JStr text)]])])).

(** A service whose answer has a first content block without a text. *)
Definition answers_without_text (_ : list Message) : FetchResult :=
  Responded true
    (inr (JObj [("content", JArr [JObj [("type", JStr "tool_use")]])])).

(** The empty conversation of [three], a question for it and a clock
    reading. *)
Definition untitled : Conversation :=
  chat "1714554000000" "New Chat" [] "2024-05-01T09:00:00.000Z".

Definition question : string := "How do I reverse a string in place?".

Definition noon : Z := 1714564800000.

(** Two requests for a new conversation in one millisecond. *)
Definition same_millisecond : list (Z * Z * Z) :=
  [(1714564800000, 1714564800000, 1714564800000);
   (1714564800000, 1714564800000, 1714564800001)].

Definition one_turn (i : string) (text : string) : Turn :=
  {| turn_apiKey := Some "sk-key"; turn_fetch := answers "Use two pointers.";
     turn_now := 1714564800000; turn_id := i; turn_message := Some text |}.

(** The second conversation of [three]. *)
Definition sorting : Conversation :=
  chat "1714557600000" "Sorting in place"
    [userMsg "Sorting in place";
     {| role := assistant; content := Some (JStr "Use sort.") |}]
    "2024-05-01T10:30:00.000Z".


(** A service that is overloaded. *)
Definition overloaded (_ : list Message) : FetchResult :=
  Responded false
    (inr (JObj [("type", JStr "error");
                ("error", JObj [("type", JStr "overloaded_error");
                                ("message", JStr "Overloaded")])])).


End Runs.

(* ================================================================== *)
(** * Reading back what the concrete runtime writes *)

Module NodeFacts.
Import Node.

#[local] Open Scope nat_scope.

Lemma skip_ws_blank (pre s : list ascii) :
  blank pre -> skip_ws (pre ++ s) = skip_ws s.
Proof.
  unfold blank. induction pre as [|c pre IH]; simpl; [reflexivity|].
  intros H. apply andb_prop in H as [Hc Hpre]. rewrite Hc. auto.
Qed.

Lemma skip_ws_stop (c : ascii) (s : list ascii) :
  is_ws c = false -> skip_ws (c :: s) = c :: s.
Proof. intros H. simpl. now rewrite H. Qed.

Lemma blank_inner (indent : list ascii) :
  blank indent -> blank (indent ++ chars "  ").
Proof.
  unfold blank. intros H. rewrite forallb_app, H. reflexivity.
Qed.

Lemma blank_line (indent : list ascii) : blank indent -> blank (LF :: indent).
Proof. unfold blank. intros H. simpl. exact H. Qed.

Lemma skip_ws_line (indent s : list ascii) :
  blank indent -> skip_ws (LF :: indent ++ s) = skip_ws s.
Proof. intros H. apply (skip_ws_blank (LF :: indent)), blank_line, H. Qed.

(** One escaped character is read back as that character. *)
Lemma parse_chars_escape (c : ascii) (r : list ascii) :
  parse_chars (escape c ++ r) =
  match parse_chars r with
  | Some (t, rest) => Some (String c t, rest)
  | None => None
  end.
Proof.
  destruct c as [[] [] [] [] [] [] [] []]; reflexivity.
Qed.

Lemma parse_chars_escape_all (s : string) (rest : list ascii) :
  parse_chars (escape_all s ++ quote :: rest) = Some (s, rest).
Proof.
  induction s as [|c s IH]; [reflexivity|].
  simpl escape_all. rewrite <- app_assoc, parse_chars_escape, IH. reflexivity.
Qed.


(** ** Numbers *)

Lemma digits_num_chars (d : Decimal.uint) :
  forallb is_num_char (chars (NilEmpty.string_of_uint d)) = true.
Proof. induction d; simpl; auto. Qed.

Lemma string_of_uint_num_chars (d : Decimal.uint) :
  forallb is_num_char (chars (NilZero.string_of_uint d)) = true.
Proof. destruct d; try reflexivity; apply (digits_num_chars (_ d)). Qed.

Lemma toString_num_chars (n : Z) :
  forallb is_num_char (chars (Number_toString n)) = true.
Proof.
  unfold Number_toString. destruct (Z.to_int n) as [d|d]; simpl.
  - apply string_of_uint_num_chars.
  - apply string_of_uint_num_chars.
Qed.

Lemma toString_nonempty (n : Z) :
  exists c t, chars (Number_toString n) = c :: t /\ is_num_char c = true.
Proof.
  pose proof (toString_num_chars n) as H.
  assert (E : Number_toString n <> EmptyString).
  { unfold Number_toString. destruct (Z.to_int n) as [d|d]; simpl; [|discriminate].
    destruct d; discriminate. }
  destruct (Number_toString n) as [|c t]; [congruence|].
  exists c, (chars t). simpl in H. apply andb_prop in H as [Hc _]. auto.
Qed.

Lemma span_num_token (tok rest : list ascii) :
  forallb is_num_char tok = true -> terminated rest ->
  span_num (tok ++ rest) = (tok, rest).
Proof.
  intros Htok Hrest. induction tok as [|c tok IH]; simpl.
  - destruct rest as [|c r]; [reflexivity|]. simpl in Hrest. simpl. now rewrite Hrest.
  - simpl in Htok. apply andb_prop in Htok as [Hc Htok]. rewrite Hc, (IH Htok).
    reflexivity.
Qed.

Lemma to_int_proper (n : Z) :
  Z.to_int n <> Decimal.Pos Decimal.Nil /\ Z.to_int n <> Decimal.Neg Decimal.Nil.
Proof.
  destruct n; simpl; split; try discriminate;
    intros [= H]; exact (Unsigned.to_uint_nonnil _ H).
Qed.

Lemma int_of_toString (n : Z) :
  NilZero.int_of_string (Number_toString n) = Some (Z.to_int n).
Proof.
  unfold Number_toString. destruct (to_int_proper n). now apply NilZero.isi.
Qed.

Lemma parse_number_toString (n : Z) (rest : list ascii) :
  terminated rest ->
  parse_number (chars (Number_toString n) ++ rest) = Some (JNum n, rest).
Proof.
  intros Hrest. unfold parse_number.
  rewrite (span_num_token _ _ (toString_num_chars n) Hrest).
  unfold chars. rewrite string_of_list_ascii_of_string, int_of_toString.
  rewrite DecimalZ.of_to, String.eqb_refl. reflexivity.
Qed.

(** A number is the same for every runtime text of it. *)
Lemma Number_toString_inj (m n : Z) :
  Number_toString m = Number_toString n -> m = n.
Proof.
  intros H. apply DecimalZ.to_int_inj.
  pose proof (int_of_toString m) as Hm. rewrite H, int_of_toString in Hm.
  congruence.
Qed.

Lemma num_char_start (c : ascii) :
  is_num_char c = true ->
  is_ws c = false /\ (c =? "n")%char = false /\ (c =? "t")%char = false
  /\ (c =? "f")%char = false /\ (c =? quote)%char = false
  /\ (c =? "[")%char = false /\ (c =? "{")%char = false
  /\ (c =? "]")%char = false /\ (c =? "}")%char = false.
Proof.
  destruct c as [[] [] [] [] [] [] [] []]; vm_compute; intros H;
    first [discriminate H | repeat split; reflexivity].
Qed.


(** ** Documents *)

Lemma print_head (j : json) (indent : list ascii) :
  exists c t, print indent j = c :: t /\ is_ws c = false
    /\ (c =? "]")%char = false /\ (c =? "}")%char = false.
Proof.
  destruct j as [|[]|n|s|[|x r]|[|kv r]];
    try (eexists; eexists; split; [reflexivity|repeat split; reflexivity]).
  destruct (toString_nonempty n) as (c & t & E & Hc).
  exists c, t. simpl. split; [exact E|].
  destruct (num_char_start c Hc) as (? & ? & ? & ? & ? & ? & ? & ? & ?). auto.
Qed.

Lemma parse_value_S (fuel : nat) (s : list ascii) :
  parse_value (S fuel) s =
  match skip_ws s with
  | [] => None
  | c :: r =>
      if (c =? "n")%char then keyword "null" JNull (c :: r)
      else if (c =? "t")%char then keyword "true" (JBool true) (c :: r)
      else if (c =? "f")%char then keyword "false" (JBool false) (c :: r)
      else if (c =? quote)%char then
        match parse_chars r with
        | Some (t, rest) => Some (JStr t, rest)
        | None => None
        end
      else if (c =? "[")%char then
        match skip_ws r with
        | c' :: r' =>
            if (c' =? "]")%char then Some (JArr [], r')
            else
              match parse_items fuel (c' :: r') with
              | Some (l, rest) => Some (JArr l, rest)
              | None => None
              end
        | [] => None
        end
      else if (c =? "{")%char then
        match skip_ws r with
        | c' :: r' =>
            if (c' =? "}")%char then Some (JObj [], r')
            else
              match parse_props fuel (c' :: r') with
              | Some (l, rest) => Some (JObj l, rest)
              | None => None
              end
        | [] => None
        end
      else if is_num_char c then parse_number (c :: r)
      else None
  end.
Proof. reflexivity. Qed.

Lemma parse_items_S (fuel : nat) (s : list ascii) :
  parse_items (S fuel) s =
  match parse_value fuel s with
  | Some (v, r) =>
      match skip_ws r with
      | c :: r' =>
          if (c =? ",")%char then
            match parse_items fuel r' with
            | Some (vs, rest) => Some (v :: vs, rest)
            | None => None
            end
          else if (c =? "]")%char then Some ([v], r')
          else None
      | [] => None
      end
  | None => None
  end.
Proof. reflexivity. Qed.

Lemma parse_props_S (fuel : nat) (s : list ascii) :
  parse_props (S fuel) s =
  match skip_ws s with
  | c :: r =>
      if (c =? quote)%char then
        match parse_chars r with
        | Some (k, r1) =>
            match skip_ws r1 with
            | c1 :: r2 =>
                if (c1 =? ":")%char then
                  match parse_value fuel r2 with
                  | Some (v, r3) =>
                      match skip_ws r3 with
                      | c3 :: r4 =>
                          if (c3 =? ",")%char then
                            match parse_props fuel r4 with
                            | Some (ps, rest) => Some ((k, v) :: ps, rest)
                            | None => None
                            end
                          else if (c3 =? "}")%char then Some ([(k, v)], r4)
                          else None
                      | [] => None
                      end
                  | None => None
                  end
                else None
            | [] => None
            end
        | None => None
        end
      else None
  | [] => None
  end.
Proof. reflexivity. Qed.

Lemma parse_items_print (indent inner : list ascii) (rest : list ascii) :
  blank indent -> blank inner ->
  forall (xs : list json) (x : json) (fuel : nat) (pre : list ascii),
    Forall reads_back (x :: xs) ->
    list_sum (map (fun y => S (weight y)) (x :: xs)) <= fuel ->
    blank pre ->
    parse_items fuel
      (pre ++ print inner x ++ print_more (print inner) inner xs
         ++ LF :: indent ++ "]"%char :: rest)
    = Some (x :: xs, rest).
Proof.
  intros Hindent Hinner.
  induction xs as [|y ys IH]; intros x fuel pre HF Hw Hpre;
    inversion HF as [|? ? Hx Hxs]; subst;
    destruct fuel as [|fuel]; simpl in Hw; try lia;
    rewrite parse_items_S.
  - rewrite Hx; [|lia|exact Hinner|exact Hpre|reflexivity].
    cbn [print_more app].
    rewrite skip_ws_line by exact Hindent. reflexivity.
  - rewrite Hx; [|lia|exact Hinner|exact Hpre|reflexivity].
    cbn [print_more app]. rewrite <- !app_assoc.
    rewrite skip_ws_stop by reflexivity.
    change (","%char =? ","%char)%char with true. cbv iota.
    assert (E := IH y fuel (LF :: inner) Hxs).
    cbn [app] in E. rewrite E; [reflexivity| |now apply blank_line].
    simpl. lia.
Qed.


Lemma parse_props_print (indent inner : list ascii) (rest : list ascii) :
  blank indent -> blank inner ->
  let p := fun kv : string * json =>
             quoted (fst kv) ++ chars ": " ++ print inner (snd kv) in
  forall (ps : list (string * json)) (kv : string * json) (fuel : nat)
         (pre : list ascii),
    Forall (fun kv => reads_back (snd kv)) (kv :: ps) ->
    list_sum (map (fun kv => S (weight (snd kv))) (kv :: ps)) <= fuel ->
    blank pre ->
    parse_props fuel
      (pre ++ p kv ++ print_more p inner ps ++ LF :: indent ++ "}"%char :: rest)
    = Some (kv :: ps, rest).
Proof.
  intros Hindent Hinner p.
  induction ps as [|kv' ps IH]; intros [k v] fuel pre HF Hw Hpre;
    inversion HF as [|? ? Hv Hps]; subst;
    destruct fuel as [|fuel]; simpl in Hw; try lia;
    rewrite parse_props_S, skip_ws_blank by exact Hpre;
    unfold p at 1; unfold quoted; cbn [fst snd app chars list_ascii_of_string];
    rewrite <- !app_assoc; cbn [app];
    rewrite skip_ws_stop by reflexivity;
    change (quote =? quote)%char with true; cbv iota;
    rewrite parse_chars_escape_all;
    rewrite skip_ws_stop by reflexivity;
    change (":"%char =? ":"%char)%char with true; cbv iota;
    assert (E := Hv fuel inner [" "%char]); cbn [app snd] in E.
  - rewrite E; [|lia|exact Hinner|reflexivity|reflexivity].
    cbn [print_more app].
    rewrite skip_ws_line by exact Hindent. reflexivity.
  - rewrite E; [|lia|exact Hinner|reflexivity|reflexivity].
    cbn [print_more app]. rewrite <- !app_assoc.
    rewrite skip_ws_stop by reflexivity.
    change (","%char =? ","%char)%char with true. cbv iota.
    assert (E' := IH kv' fuel (LF :: inner) Hps).
    cbn [app] in E'. rewrite E'; [reflexivity| |now apply blank_line].
    simpl. lia.
Qed.

Lemma parse_value_blank (fuel : nat) (pre s : list ascii) :
  blank pre -> parse_value fuel (pre ++ s) = parse_value fuel s.
Proof.
  intros H. destruct fuel; [reflexivity|].
  now rewrite !parse_value_S, skip_ws_blank.
Qed.

Lemma parse_value_string (fuel : nat) (r : list ascii) :
  parse_value (S fuel) (quote :: r) =
  match parse_chars r with
  | Some (t, rest) => Some (JStr t, rest)
  | None => None
  end.
Proof. reflexivity. Qed.

Lemma parse_value_array (fuel : nat) (r : list ascii) :
  parse_value (S fuel) ("["%char :: r) =
  match skip_ws r with
  | c' :: r' =>
      if (c' =? "]")%char then Some (JArr [], r')
      else
        match parse_items fuel (c' :: r') with
        | Some (l, rest) => Some (JArr l, rest)
        | None => None
        end
  | [] => None
  end.
Proof. reflexivity. Qed.

Lemma parse_value_object (fuel : nat) (r : list ascii) :
  parse_value (S fuel) ("{"%char :: r) =
  match skip_ws r with
  | c' :: r' =>
      if (c' =? "}")%char then Some (JObj [], r')
      else
        match parse_props fuel (c' :: r') with
        | Some (l, rest) => Some (JObj l, rest)
        | None => None
        end
  | [] => None
  end.
Proof. reflexivity. Qed.

Ltac flatten := repeat progress (cbn [app]; rewrite <- ?app_assoc).

(** Every document is read back from its text, whatever follows it. *)
Lemma print_reads_back (j : json) : reads_back j.
Proof.
  induction j as [|b|n|s|items IH|props IH] using json_ind;
    intros fuel indent pre rest Hw Hindent Hpre Hrest;
    (destruct fuel as [|fuel]; [simpl in Hw; lia|]);
    rewrite parse_value_blank by exact Hpre.
  - reflexivity.
  - destruct b; reflexivity.
  - cbn [print]. destruct (toString_nonempty n) as (c & t & E & Hc).
    destruct (num_char_start c Hc) as (Hws & H1 & H2 & H3 & H4 & H5 & H6 & _).
    rewrite parse_value_S, E. cbn [app]. rewrite skip_ws_stop by exact Hws.
    rewrite H1, H2, H3, H4, H5, H6, Hc.
    change (c :: t ++ rest) with ((c :: t) ++ rest). rewrite <- E.
    now apply parse_number_toString.
  - cbn [print]. unfold quoted. flatten.
    rewrite parse_value_string, parse_chars_escape_all. reflexivity.
  - cbn [print]. destruct items as [|x xs]; [reflexivity|].
    pose proof (blank_inner _ Hindent) as Hinner.
    set (inner := indent ++ chars "  ") in *. clearbody inner.
    unfold print_block. flatten.
    rewrite parse_value_array, skip_ws_line by exact Hinner.
    destruct (print_head x inner) as (c & t & E & Hws & Hc & _).
    rewrite E at 1. cbn [app]. rewrite skip_ws_stop by exact Hws.
    rewrite Hc.
    change (c :: t ++ ?r) with ((c :: t) ++ r). rewrite <- E.
    assert (E' := parse_items_print indent inner rest Hindent Hinner xs x fuel [] IH).
    cbn [app] in E'. rewrite E'; [reflexivity| |reflexivity].
    simpl in Hw. simpl. lia.
  - cbn [print]. destruct props as [|kv ps]; [reflexivity|].
    pose proof (blank_inner _ Hindent) as Hinner.
    set (inner := indent ++ chars "  ") in *. clearbody inner.
    unfold print_block. flatten.
    rewrite parse_value_object, skip_ws_line by exact Hinner.
    unfold quoted at 1. flatten. rewrite skip_ws_stop by reflexivity.
    change (if (quote =? "}")%char then ?a else ?b) with b.
    assert (E := parse_props_print indent inner rest Hindent Hinner ps kv fuel [] IH).
    cbv zeta in E. unfold quoted at 1 in E.
    repeat progress (cbn [app] in E; rewrite <- ?app_assoc in E).
    rewrite E; [reflexivity| |reflexivity].
    simpl in Hw. simpl. lia.
Qed.

(** The text of a document is long enough to serve as fuel. *)
Lemma print_more_length {A : Type} (w : A -> nat) (p : A -> list ascii)
  (inner : list ascii) (l : list A) :
  Forall (fun y => w y <= List.length (p y)) l ->
  list_sum (map (fun y => S (w y)) l) <= List.length (print_more p inner l).
Proof.
  induction 1 as [|y r Hy _ IH]; simpl; [lia|].
  rewrite !length_app. lia.
Qed.

Lemma print_block_length {A : Type} (w : A -> nat) (p : A -> list ascii)
  (o c : ascii) (indent inner : list ascii) (l : list A) :
  Forall (fun y => w y <= List.length (p y)) l ->
  S (list_sum (map (fun y => S (w y)) l))
    <= List.length (print_block o c p indent inner l).
Proof.
  intros H. destruct l as [|x r]; simpl; [lia|].
  inversion H as [|? ? Hx Hr]; subst.
  pose proof (print_more_length w p inner r Hr).
  rewrite !length_app. simpl. rewrite !length_app. lia.
Qed.

Lemma weight_le_length (j : json) :
  forall indent, weight j <= List.length (print indent j).
Proof.
  induction j as [|b|n|s|items IH|props IH] using json_ind; intros indent.
  - simpl. lia.
  - destruct b; simpl; lia.
  - cbn [print weight]. destruct (toString_nonempty n) as (c & t & E & _).
    rewrite E. simpl. lia.
  - simpl. lia.
  - cbn [print weight]. apply print_block_length.
    eapply Forall_impl; [|exact IH]. intros x Hx. apply Hx.
  - cbn [print weight].
    apply (print_block_length (fun kv => weight (snd kv))).
    eapply Forall_impl; [|exact IH]. intros [k v] Hv. cbn [fst snd].
    rewrite !length_app. specialize (Hv (indent ++ chars "  ")). cbn [snd] in Hv. lia.
Qed.

Lemma length_string_of_list_ascii (l : list ascii) :
  String.length (string_of_list_ascii l) = List.length l.
Proof. induction l; simpl; congruence. Qed.

(** [JSON.parse (JSON.stringify (j, null, 2))] is [j]. *)
Lemma parse_of_stringify (j : json) : parse (stringify j) = Some j.
Proof.
  unfold parse, stringify, chars.
  rewrite list_ascii_of_string_of_list_ascii, length_string_of_list_ascii.
  pose proof (print_reads_back j (S (List.length (print [] j))) [] [] []) as H.
  cbn [app] in H. rewrite app_nil_r in H.
  rewrite H; [reflexivity| |reflexivity|reflexivity|exact I].
  pose proof (weight_le_length j []). lia.
Qed.

End NodeFacts.

(** The concrete runtime satisfies the law. *)
Lemma Node_laws : JSONLaws Node.runtime.
Proof. constructor. exact NodeFacts.parse_of_stringify. Qed.
(** * The document of a store is read as that store *)

Lemma traverse_map {A B : Type} (f : A -> option B) (g : B -> A) (l : list B) :
  (forall x, f (g x) = Some x) -> traverse f (map g l) = Some l.
Proof.
  intros H. induction l as [|x r IH]; simpl; [reflexivity|].
  now rewrite H, IH.
Qed.

Lemma as_message_of_message (m : Message) : as_message (of_message m) = Some m.
Proof. destruct m as [[] [v|]]; reflexivity. Qed.

Lemma as_conversation_of_conversation (c : Conversation) :
  as_conversation (of_conversation c) = Some c.
Proof.
  destruct c as [i t ms ca ua]. cbn.
  now rewrite (traverse_map _ _ ms as_message_of_message).
Qed.

Lemma as_db_of_db (db : Db) : as_db (of_db db) = Some db.
Proof.
  destruct db as [cs]. cbn.
  now rewrite (traverse_map _ _ cs as_conversation_of_conversation).
Qed.

(** * The stable sort *)

Section SortFacts.

Context {A : Type} (comparefn : A -> A -> option Z) (key : A -> Z)
  (good : A -> Prop).

(** On the elements at hand the comparison is the difference of two keys, the
    second minus the first: the order is by key, descending. *)
Hypothesis compare_keys :
  forall x y, good x -> good y -> SortCompare comparefn x y = key y - key x.

Lemma insert_perm (x : A) (l : list A) : Permutation (insert comparefn x l) (x :: l).
Proof.
  induction l as [|y r IH]; simpl; [reflexivity|].
  destruct (SortCompare comparefn x y <=? 0); [reflexivity|].
  rewrite IH. apply perm_swap.
Qed.

Lemma Array_sort_perm (l : list A) : Permutation (Array_sort comparefn l) l.
Proof.
  induction l as [|x r IH]; simpl; [reflexivity|].
  rewrite insert_perm. now constructor.
Qed.

Lemma Array_sort_good (l : list A) :
  Forall good l -> Forall good (Array_sort comparefn l).
Proof.
  intros H. eapply Permutation_Forall; [|exact H].
  symmetry. apply Array_sort_perm.
Qed.

Lemma insert_sorted (x : A) (l : list A) :
  good x -> Forall good l ->
  StronglySorted (descending key) l -> StronglySorted (descending key) (insert comparefn x l).
Proof.
  intros Hx. induction l as [|y r IH]; intros Hl Hs; simpl.
  - repeat constructor.
  - inversion Hl as [|? ? Hy Hr]; subst.
    inversion Hs as [|? ? Hsr Hyr]; subst.
    destruct (Z.leb_spec (SortCompare comparefn x y) 0) as [Hle|Hgt];
      rewrite (compare_keys x y Hx Hy) in *.
    + constructor; [exact Hs|]. constructor; [unfold descending; lia|].
      eapply Forall_impl; [|exact Hyr]. unfold descending. intros; lia.
    + constructor; [now apply IH|].
      eapply Permutation_Forall; [symmetry; apply insert_perm|].
      constructor; [unfold descending; lia|exact Hyr].
Qed.

Lemma Array_sort_sorted (l : list A) :
  Forall good l -> StronglySorted (descending key) (Array_sort comparefn l).
Proof.
  induction 1 as [|x r Hx Hr IH]; simpl; [constructor|].
  apply insert_sorted; auto using Array_sort_good.
Qed.

Lemma insert_stable (t : Z) (x : A) (l : list A) :
  good x -> Forall good l ->
  filter (fun a => key a =? t) (insert comparefn x l)
  = filter (fun a => key a =? t) (x :: l).
Proof.
  intros Hx. induction l as [|y r IH]; intros Hl; [reflexivity|].
  inversion Hl as [|? ? Hy Hr]; subst. simpl insert.
  destruct (Z.leb_spec (SortCompare comparefn x y) 0) as [Hle|Hgt];
    [reflexivity|].
  rewrite (compare_keys x y Hx Hy) in Hgt.
  simpl. rewrite (IH Hr). simpl.
  destruct (Z.eqb_spec (key y) t), (Z.eqb_spec (key x) t); try reflexivity; lia.
Qed.

Lemma Array_sort_stable (t : Z) (l : list A) :
  Forall good l ->
  filter (fun a => key a =? t) (Array_sort comparefn l)
  = filter (fun a => key a =? t) l.
Proof.
  induction 1 as [|x r Hx Hr IH]; [reflexivity|].
  simpl Array_sort. rewrite insert_stable by auto using Array_sort_good.
  simpl. now rewrite IH.
Qed.

End SortFacts.

Lemma NoDup_map_injective {A B : Type} (f : A -> B) (l : list A) :
  (forall x y, f x = f y -> x = y) -> NoDup l -> NoDup (map f l).
Proof.
  intros Hf. induction 1 as [|x r Hx _ IH]; simpl; constructor; [|exact IH].
  rewrite in_map_iff. intros (y & E & Hy). apply Hf in E. now subst.
Qed.

(** * Finding and changing one conversation *)

Lemma find_conversation_id (i : string) (db : Db) (c : Conversation) :
  find_conversation i db = Some c -> id c = i.
Proof.
  unfold find_conversation. intros H. apply find_some in H as [_ H].
  now apply String.eqb_eq.
Qed.

Lemma find_mutate_first (i : string) (f : Conversation -> Conversation)
  (l : list Conversation) (c : Conversation) :
  find (fun c => (id c =? i)%string) l = Some c -> id (f c) = i ->
  find (fun c => (id c =? i)%string) (mutate_first i f l) = Some (f c).
Proof.
  intros H Hf. induction l as [|x r IH]; simpl in *; [discriminate|].
  destruct (id x =? i)%string eqn:E.
  - injection H as ->. simpl. now rewrite Hf, String.eqb_refl.
  - simpl. rewrite E. auto.
Qed.

Lemma find_mutate (i : string) (f : Conversation -> Conversation) (db : Db)
  (c : Conversation) :
  find_conversation i db = Some c -> id (f c) = i ->
  find_conversation i (mutate i f db) = Some (f c).
Proof. apply find_mutate_first. Qed.

(** Changing the conversation of one id leaves the search for another id as
    it was. *)
Lemma find_mutate_other (i j : string) (f : Conversation -> Conversation)
  (db : Db) :
  i <> j -> (forall c, id c = j -> id (f c) = j) ->
  find_conversation i (mutate j f db) = find_conversation i db.
Proof.
  intros Hij Hf. unfold find_conversation, mutate. simpl.
  induction (conversations db) as [|x r IH]; simpl; [reflexivity|].
  destruct (String.eqb_spec (id x) j) as [Ej|Ej]; simpl.
  - rewrite (Hf x Ej).
    destruct (String.eqb_spec j i); [congruence|].
    destruct (String.eqb_spec (id x) i); [congruence|reflexivity].
  - now rewrite IH.
Qed.

Lemma without_mutate_first (i : string) (f : Conversation -> Conversation)
  (l : list Conversation) :
  (forall c, id c = i -> id (f c) = i) ->
  without i (mutate_first i f l) = without i l.
Proof.
  intros Hf. unfold without. induction l as [|x r IH]; simpl; [reflexivity|].
  destruct (String.eqb_spec (id x) i) as [E|E]; simpl.
  - rewrite (Hf x E), String.eqb_refl. reflexivity.
  - destruct (String.eqb_spec (id x) i); [contradiction|]. simpl. now rewrite IH.
Qed.

Lemma without_without (i : string) (l : list Conversation) :
  without i (without i l) = without i l.
Proof.
  unfold without. induction l as [|x r IH]; simpl; [reflexivity|].
  destruct (negb (id x =? i)%string) eqn:E; simpl; rewrite ?E, IH; reflexivity.
Qed.

Lemma length_without (i : string) (l : list Conversation) :
  (List.length (without i l) + held i l = List.length l)%nat.
Proof.
  unfold without, held. induction l as [|x r IH]; simpl; [reflexivity|].
  destruct (id x =? i)%string; simpl; lia.
Qed.

Lemma held_find (i : string) (l : list Conversation) :
  held i l = 0%nat <-> find (fun c => (id c =? i)%string) l = None.
Proof.
  unfold held. induction l as [|x r IH]; simpl; [tauto|].
  destruct (id x =? i)%string; simpl; [split; discriminate|exact IH].
Qed.

Lemma held_without (i : string) (l : list Conversation) :
  held i (without i l) = 0%nat.
Proof.
  unfold held, without. induction l as [|x r IH]; simpl; [reflexivity|].
  destruct (id x =? i)%string eqn:E; simpl; rewrite ?E; exact IH.
Qed.

(** * The derived title *)

Lemma slice0_prefix (n : nat) (s : string) :
  exists rest, s = (slice0 n s ++ rest)%string
               /\ String.length (slice0 n s) = Nat.min n (String.length s).
Proof.
  unfold slice0. revert s. induction n as [|n IH]; intros s.
  - exists s. destruct s; split; reflexivity.
  - destruct s as [|c s]; [exists ""; split; reflexivity|].
    destruct (IH s) as (rest & E & Hlen). exists rest. simpl.
    split; [now rewrite <- E|now rewrite Hlen].
Qed.

Lemma slice0_all (n : nat) (s : string) :
  (String.length s <= n)%nat -> slice0 n s = s.
Proof.
  unfold slice0. revert s. induction n as [|n IH]; intros [|c s] H;
    simpl in *; try reflexivity; [lia|].
  rewrite IH by lia. reflexivity.
Qed.

Lemma append_empty_r (s : string) : (s ++ "")%string = s.
Proof. induction s; simpl; congruence. Qed.

Lemma derived_title_short (message : string) :
  (String.length message <= 30)%nat -> derived_title message = message.
Proof.
  intros H. unfold derived_title.
  destruct (Nat.ltb_spec 30 (String.length message)); [lia|].
  now rewrite slice0_all, append_empty_r.
Qed.

Lemma derived_title_long (message : string) :
  (30 < String.length message)%nat ->
  exists prefix rest,
    message = (prefix ++ rest)%string /\ String.length prefix = 30%nat
    /\ derived_title message = (prefix ++ "...")%string.
Proof.
  intros H. unfold derived_title.
  destruct (Nat.ltb_spec 30 (String.length message)); [|lia].
  destruct (slice0_prefix 30 message) as (rest & E & Hlen).
  exists (slice0 30 message), rest. repeat split; [exact E|lia].
Qed.

Lemma auto_title_first (message : string) (c : Conversation) :
  messages c = [] -> title c = "New Chat" ->
  title (auto_title message (push (userMsg message) c)) = derived_title message.
Proof.
  intros Hm Ht. unfold auto_title, push. simpl. rewrite Hm, Ht. reflexivity.
Qed.

(** The title changes only on the first message of a conversation that is
    still called "New Chat". *)
Lemma auto_title_cases (message : string) (c : Conversation) :
  let c' := auto_title message (push (userMsg message) c) in
  id c' = id c /\ messages c' = messages c ++ [userMsg message]
  /\ createdAt c' = createdAt c /\ updatedAt c' = updatedAt c
  /\ ((messages c = [] /\ title c = "New Chat"
       /\ title c' = derived_title message)
      \/ ((messages c <> [] \/ title c <> "New Chat") /\ title c' = title c)).
Proof.
  unfold auto_title, push. simpl.
  destruct (messages c) as [|m ms] eqn:Hm; simpl.
  - destruct (String.eqb_spec (title c) "New Chat") as [E|E]; simpl;
      repeat split; auto.
  - assert (E : (List.length (ms ++ [userMsg message]) =? 0)%nat = false).
    { rewrite length_app. simpl. apply Nat.eqb_neq. lia. }
    rewrite E. simpl. repeat split; auto. right. split; [left; discriminate|reflexivity].
Qed.

Section Properties.

Context {R : Runtime} {L : JSONLaws R}.

Lemma loadDb_saveDb (data : json) (w : World) : loadDb (saveDb data w) = data.
Proof. unfold loadDb, saveDb. cbn. now rewrite parse_stringify. Qed.

Lemma load_store_save_store (db : Db) (w : World) :
  load_store (save_store db w) = Some db.
Proof. unfold load_store, save_store. now rewrite loadDb_saveDb, as_db_of_db. Qed.

(** ** GET /api/conversations *)

Lemma SortCompare_by_recency (a b : Summary.t) :
  Date_value (Summary.updatedAt a) <> None ->
  Date_value (Summary.updatedAt b) <> None ->
  SortCompare by_recency a b = time_of b - time_of a.
Proof.
  unfold SortCompare, by_recency, time_of. intros Ha Hb.
  destruct (Date_value (Summary.updatedAt b)); [|contradiction].
  destruct (Date_value (Summary.updatedAt a)); [|contradiction].
  reflexivity.
Qed.

(** C5: the summaries are one per conversation, most recently updated
    first, conversations of one time in the order of the store, and the
    store is not written. *)
Theorem get_conversations_sorted (w : World) (db : Db) :
  load_store w = Some db ->
  Forall dated (conversations db) ->
  exists l,
    get_conversations w = (SummariesJson l, w)
    /\ Permutation l (map summary (conversations db))
    /\ StronglySorted (descending time_of) l
    /\ forall t, filter (fun s => time_of s =? t) l
                 = filter (fun s => time_of s =? t) (map summary (conversations db)).
Proof.
  intros Hload Hdated. unfold get_conversations. rewrite Hload.
  eexists. split; [reflexivity|].
  assert (Hgood : Forall (fun s => Date_value (Summary.updatedAt s) <> None)
                    (map summary (conversations db))).
  { rewrite Forall_map. exact Hdated. }
  split; [apply Array_sort_perm|]. split.
  - now apply (Array_sort_sorted by_recency time_of _ SortCompare_by_recency).
  - intros t.
    now apply (Array_sort_stable by_recency time_of _ SortCompare_by_recency).
Qed.

(** ** PUT /api/conversations/:id *)

(** C6: with no title or an empty one the conversation is answered as it is
    and nothing is written; with a title, the first conversation of that id
    gets the title and a new [updatedAt], and the store is written once. *)
Theorem put_conversation_rename (w : World) (db : Db) (i : string)
  (conv : Conversation) (now : Z) :
  load_store w = Some db ->
  find_conversation i db = Some conv ->
  put_conversation now i None w = (ConversationJson conv, w)
  /\ put_conversation now i (Some "") w = (ConversationJson conv, w)
  /\ forall c s,
       let newTitle := String c s in
       let conv' := {| id := id conv; title := newTitle;
                       messages := messages conv; createdAt := createdAt conv;
                       updatedAt := toISOString now |} in
       exists w',
         put_conversation now i (Some newTitle) w = (ConversationJson conv', w')
         /\ writes w' = S (writes w)
         /\ get_conversation i w' = (ConversationJson conv', w').
Proof.
  intros Hload Hfind. unfold put_conversation. rewrite Hload, Hfind.
  split; [reflexivity|]. split; [reflexivity|].
  intros c s. eexists. split; [reflexivity|].
  split; [reflexivity|].
  unfold get_conversation. rewrite load_store_save_store.
  rewrite (find_mutate i _ db conv Hfind); [reflexivity|].
  simpl. now apply find_conversation_id with db.
Qed.

(** ** DELETE /api/conversations/:id *)

(** C7, as the code has it: an id nobody holds is not found and nothing is
    written; otherwise every conversation of that id is removed, exactly one
    where one holds it, the store is written and the id is not found
    afterwards. *)
Theorem delete_conversation_exact (w : World) (db : Db) (i : string) :
  load_store w = Some db ->
  (held i (conversations db) = 0%nat ->
     delete_conversation i w = (NotFound, w))
  /\ ((0 < held i (conversations db))%nat ->
        exists w',
          delete_conversation i w = (SuccessJson, w')
          /\ writes w' = S (writes w)
          /\ load_store w' = Some {| conversations := without i (conversations db) |}
          /\ (List.length (without i (conversations db)) + held i (conversations db)
              = List.length (conversations db))%nat
          /\ (held i (conversations db) = 1%nat ->
                (List.length (without i (conversations db)) + 1
                 = List.length (conversations db))%nat)
          /\ get_conversation i w' = (NotFound, w')).
Proof.
  intros Hload. unfold delete_conversation. rewrite Hload.
  pose proof (length_without i (conversations db)) as Hlen.
  split; intros Hheld.
  - replace (List.length (without i (conversations db)))
      with (List.length (conversations db)) by lia.
    now rewrite Nat.eqb_refl.
  - destruct (Nat.eqb_spec (List.length (without i (conversations db)))
                (List.length (conversations db))) as [E|E]; [lia|].
    eexists. split; [reflexivity|]. split; [reflexivity|].
    split; [apply load_store_save_store|]. split; [exact Hlen|].
    split; [lia|].
    unfold get_conversation. rewrite load_store_save_store.
    unfold find_conversation. simpl.
    now rewrite (proj1 (held_find i _) (held_without i _)).
Qed.

(** ** POST /api/conversations *)

Lemma post_conversation_run (t_id t_created t_updated : Z) (w : World) (db : Db) :
  load_store w = Some db ->
  let c := newConv t_id t_created t_updated in
  exists w',
    post_conversation t_id t_created t_updated w = (ConversationJson c, w')
    /\ load_store w' = Some {| conversations := conversations db ++ [c] |}.
Proof.
  intros Hload c. unfold post_conversation. rewrite Hload.
  eexists. split; [reflexivity|]. apply load_store_save_store.
Qed.

Lemma post_conversations_created (clock : list (Z * Z * Z)) :
  forall (w : World) (db : Db),
    load_store w = Some db ->
    map created_id (fst (post_conversations clock w))
    = map (fun t => Some (Number_toString (fst (fst t)))) clock.
Proof.
  induction clock as [|[[t1 t2] t3] later IH]; intros w db Hload; [reflexivity|].
  destruct (post_conversation_run t1 t2 t3 w db Hload) as (w' & E & Hload').
  cbn [post_conversations]. rewrite E.
  specialize (IH w' _ Hload').
  destruct (post_conversations later w') as [rs w2]. simpl in *. now rewrite IH.
Qed.

(** C4, as the code has it: the id of a new conversation is the clock
    reading of its request in decimal, so requests served at pairwise
    different readings get pairwise different ids. *)
Theorem post_conversations_distinct (clock : list (Z * Z * Z)) (w : World)
  (db : Db) :
  load_store w = Some db ->
  NoDup (map (fun t => fst (fst t)) clock) ->
  map created_id (fst (post_conversations clock w))
  = map (fun t => Some (Number_toString (fst (fst t)))) clock
  /\ NoDup (map created_id (fst (post_conversations clock w))).
Proof.
  intros Hload Hclock.
  rewrite (post_conversations_created clock w db Hload).
  split; [reflexivity|].
  rewrite <- (map_map (fun t => fst (fst t)) (fun n => Some (Number_toString n))).
  apply NoDup_map_injective; [|exact Hclock].
  intros m n [= H]. now apply NodeFacts.Number_toString_inj.
Qed.

(** ** The persistence helpers *)

(** C8: [loadDb] answers in every state of the file: the empty collection
    where the file is missing, cannot be read or does not parse, and what
    the text parses to otherwise. *)
Theorem loadDb_never_fails (w : World) :
  (db_file w = Missing -> loadDb w = empty_document)
  /\ (db_file w = Unreadable -> loadDb w = empty_document)
  /\ (forall text, db_file w = Text text -> JSON_parse text = None ->
        loadDb w = empty_document)
  /\ (forall text data, db_file w = Text text -> JSON_parse text = Some data ->
        loadDb w = data)
  /\ as_db empty_document = Some {| conversations := [] |}.
Proof.
  unfold loadDb, existsSync, readFileSync.
  split; [intros H; rewrite H; reflexivity|].
  split; [intros H; rewrite H; reflexivity|].
  split; [intros text H H'; rewrite H; simpl; rewrite H'; reflexivity|].
  split; [intros text data H H'; rewrite H; simpl; rewrite H'; reflexivity|].
  reflexivity.
Qed.

(** C9: a store that is saved and loaded again is the same store; in
    particular the messages of every conversation are the same, in the same
    order. *)
Theorem save_load_round_trip (db : Db) (w : World) :
  loadDb (saveDb (of_db db) w) = of_db db
  /\ load_store (save_store db w) = Some db
  /\ forall db', load_store (save_store db w) = Some db' ->
       map messages (conversations db') = map messages (conversations db).
Proof.
  split; [apply loadDb_saveDb|]. split; [apply load_store_save_store|].
  intros db'. rewrite load_store_save_store. now intros [= <-].
Qed.

(** ** POST /api/conversations/:id/message *)

Lemma answered_id (now : Z) (message : string) (text : option json)
  (conv : Conversation) : id (answered now message text conv) = id conv.
Proof.
  unfold answered, asked. simpl.
  now destruct (auto_title_cases message conv) as (-> & _).
Qed.

Lemma answered_title (now : Z) (message : string) (text : option json)
  (conv : Conversation) :
  title (answered now message text conv) = title (asked message conv).
Proof. reflexivity. Qed.

Lemma answered_messages (now : Z) (message : string) (text : option json)
  (conv : Conversation) :
  messages (answered now message text conv)
  = messages conv ++ [userMsg message; {| role := assistant; content := text |}].
Proof.
  unfold answered, asked. simpl.
  destruct (auto_title_cases message conv) as (_ & -> & _).
  now rewrite <- app_assoc.
Qed.

(** A turn either leaves the world as it is, or saves the store with the
    conversation it found replaced by the answered one. *)
Lemma post_message_cases (apiKey : option string)
  (fetch : list Message -> FetchResult) (now : Z) (i : string)
  (m : option string) (w : World) (db : Db) :
  load_store w = Some db ->
  (snd (post_message apiKey fetch now i m w) = w
   /\ forall text i' t, fst (post_message apiKey fetch now i m w) <> ReplyJson text i' t)
  \/ exists conv message text,
       find_conversation i db = Some conv /\ m = Some message
       /\ completion apiKey fetch (messages (asked message conv)) = Returned text
       /\ post_message apiKey fetch now i m w
          = (ReplyJson text i (title (asked message conv)),
             save_store (mutate i (fun _ => answered now message text conv) db) w).
Proof.
  intros Hload. unfold post_message.
  destruct m as [[|c s]|]; try (left; split; [reflexivity|discriminate]).
  rewrite Hload.
  destruct (find_conversation i db) as [conv|] eqn:Hfind;
    [|left; split; [reflexivity|discriminate]].
  destruct (completion apiKey fetch (messages (asked (String c s) conv)))
    as [text|e] eqn:Hc; [|left; split; [reflexivity|discriminate]].
  right. exists conv, (String c s), text. repeat split; try assumption.
  cbv zeta. now rewrite answered_id, (find_conversation_id i db conv Hfind).
Qed.

(** C2: on the first turn of a conversation still called "New Chat" the
    title derived from the text is the whole text when it has 30 units, and
    its first 30 units followed by "..." when it has more; the conversation
    in memory carries it when the service is asked, and the answer and the
    saved conversation carry it when the service has answered. *)
Theorem first_turn_title (apiKey : option string)
  (fetch : list Message -> FetchResult) (now : Z) (i : string)
  (c : ascii) (s : string) (w : World) (db : Db) (conv : Conversation) :
  let message := String c s in
  load_store w = Some db ->
  find_conversation i db = Some conv ->
  messages conv = [] -> title conv = "New Chat" ->
  title (asked message conv) = derived_title message
  /\ (String.length message = 30%nat -> derived_title message = message)
  /\ ((30 < String.length message)%nat ->
        exists prefix rest,
          message = (prefix ++ rest)%string /\ String.length prefix = 30%nat
          /\ derived_title message = (prefix ++ "...")%string)
  /\ (forall text,
        completion apiKey fetch [userMsg message] = Returned text ->
        exists w' conv',
          post_message apiKey fetch now i (Some message) w
          = (ReplyJson text i (derived_title message), w')
          /\ get_conversation i w' = (ConversationJson conv', w')
          /\ title conv' = derived_title message).
Proof.
  intros message Hload Hfind Hm Ht.
  assert (Htitle : title (asked message conv) = derived_title message)
    by now apply auto_title_first.
  split; [exact Htitle|].
  split; [intros H; apply derived_title_short; lia|].
  split; [apply derived_title_long|].
  intros text Hc.
  assert (Ha : messages (asked message conv) = [userMsg message]).
  { unfold asked. destruct (auto_title_cases message conv) as (_ & -> & _).
    now rewrite Hm. }
  pose proof (find_conversation_id i db conv Hfind) as Hid.
  exists (save_store (mutate i (fun _ => answered now message text conv) db) w),
         (answered now message text conv).
  split.
  - unfold post_message. fold message. rewrite Hload, Hfind, Ha, Hc. cbv zeta.
    now rewrite answered_id, answered_title, Htitle, Hid.
  - split; [|now rewrite answered_title].
    unfold get_conversation. rewrite load_store_save_store.
    rewrite (find_mutate i (fun _ => answered now message text conv) db conv Hfind);
      [reflexivity|now rewrite answered_id].
Qed.

(** After a turn the conversation is found again, and its title is the one
    it had unless this was its first message under the name "New Chat". *)
Lemma post_message_title (apiKey : option string)
  (fetch : list Message -> FetchResult) (now : Z) (i : string)
  (m : option string) (w : World) (db : Db) (conv : Conversation) :
  load_store w = Some db ->
  find_conversation i db = Some conv ->
  exists db' conv',
    load_store (snd (post_message apiKey fetch now i m w)) = Some db'
    /\ find_conversation i db' = Some conv'
    /\ (messages conv <> [] -> messages conv' <> [])
    /\ (title conv' = title conv
        \/ (messages conv = [] /\ title conv = "New Chat"
            /\ messages conv' <> []
            /\ exists message text i',
                 m = Some message /\ title conv' = derived_title message
                 /\ fst (post_message apiKey fetch now i m w)
                    = ReplyJson text i' (title conv'))).
Proof.
  intros Hload Hfind.
  destruct (post_message_cases apiKey fetch now i m w db Hload)
    as [[-> _]|(conv0 & message & text & Hfind0 & -> & _ & ->)].
  - exists db, conv. auto.
  - rewrite Hfind in Hfind0. injection Hfind0 as <-. cbn [fst snd].
    pose proof (find_conversation_id i db conv Hfind) as Hid.
    exists (mutate i (fun _ => answered now message text conv) db),
           (answered now message text conv).
    split; [apply load_store_save_store|].
    split; [apply (find_mutate i (fun _ => answered now message text conv) db conv Hfind);
            now rewrite answered_id|].
    assert (Hne : messages (answered now message text conv) <> []).
    { rewrite answered_messages. now destruct (messages conv). }
    split; [auto|].
    rewrite answered_title. unfold asked.
    destruct (auto_title_cases message conv)
      as (_ & _ & _ & _ & [(Hm & Ht & Hd)|(_ & Hsame)]); [right|now left].
    repeat split; auto. exists message, text, i. rewrite Hd. auto.
Qed.

(** A turn on one conversation leaves the title of another one, and
    whether it has messages, as they were. *)
Lemma post_message_other (apiKey : option string)
  (fetch : list Message -> FetchResult) (now : Z) (i j : string)
  (m : option string) (w : World) (db : Db) :
  load_store w = Some db -> i <> j ->
  exists db',
    load_store (snd (post_message apiKey fetch now j m w)) = Some db'
    /\ find_conversation i db' = find_conversation i db.
Proof.
  intros Hload Hij.
  destruct (post_message_cases apiKey fetch now j m w db Hload)
    as [[-> _]|(conv0 & message & text & Hfind0 & -> & _ & ->)].
  - exists db. auto.
  - cbn [snd]. eexists. split; [apply load_store_save_store|].
    apply find_mutate_other; [exact Hij|]. intros _ _.
    rewrite answered_id. now apply find_conversation_id with db.
Qed.

(** Once a conversation has messages, no sequence of turns changes its
    title. *)
Lemma submit_all_title (i : string) (ts : list Turn) :
  forall (w : World) (db : Db) (conv : Conversation),
    load_store w = Some db ->
    find_conversation i db = Some conv ->
    messages conv <> [] ->
    exists db' conv',
      load_store (submit_all ts w) = Some db'
      /\ find_conversation i db' = Some conv'
      /\ title conv' = title conv.
Proof.
  induction ts as [|t ts IH]; intros w db conv Hload Hfind Hne.
  - exists db, conv. auto.
  - cbn [submit_all fold_left]. fold (submit_all ts (snd (submit t w))).
    unfold submit.
    destruct (String.eqb_spec i (turn_id t)) as [<-|Hij].
    + destruct (post_message_title (turn_apiKey t) (turn_fetch t) (turn_now t)
                  i (turn_message t) w db conv Hload Hfind)
        as (db1 & conv1 & Hload1 & Hfind1 & Hne1 & [Ht|(Hm & _)]);
        [|contradiction].
      destruct (IH _ db1 conv1 Hload1 Hfind1 (Hne1 Hne))
        as (db' & conv' & ? & ? & ?).
      exists db', conv'. repeat split; auto. congruence.
    + destruct (post_message_other (turn_apiKey t) (turn_fetch t) (turn_now t)
                  i (turn_id t) (turn_message t) w db Hload Hij)
        as (db1 & Hload1 & Hfind1).
      rewrite Hfind in Hfind1.
      apply (IH _ db1 conv Hload1 Hfind1 Hne).
Qed.

(** C3: a turn changes the title of the conversation only when it had no
    message and was still called "New Chat"; after a turn that was answered,
    no later sequence of turns changes the title again. *)
Theorem title_derived_once (t : Turn) (w : World) (db : Db) (conv : Conversation) :
  load_store w = Some db ->
  find_conversation (turn_id t) db = Some conv ->
  (exists db' conv',
     load_store (snd (submit t w)) = Some db'
     /\ find_conversation (turn_id t) db' = Some conv'
     /\ (title conv' <> title conv ->
           messages conv = [] /\ title conv = "New Chat"))
  /\ (forall text i' title1 w1,
        submit t w = (ReplyJson text i' title1, w1) ->
        forall ts : list Turn,
        exists db2 conv2,
          load_store (submit_all ts w1) = Some db2
          /\ find_conversation (turn_id t) db2 = Some conv2
          /\ title conv2 = title1).
Proof.
  intros Hload Hfind. unfold submit. split.
  - destruct (post_message_title (turn_apiKey t) (turn_fetch t) (turn_now t)
                (turn_id t) (turn_message t) w db conv Hload Hfind)
      as (db1 & conv1 & Hload1 & Hfind1 & _ & [Ht|(Hm & Hs & _)]);
      exists db1, conv1; repeat split; auto; congruence.
  - intros text i' title1 w1 E ts.
    destruct (post_message_cases (turn_apiKey t) (turn_fetch t) (turn_now t)
                (turn_id t) (turn_message t) w db Hload)
      as [[_ Hno]|(conv0 & message & text0 & Hfind0 & Hm & _ & E')].
    + exfalso. apply (Hno text i' title1). now rewrite E.
    + rewrite Hfind in Hfind0. injection Hfind0 as <-.
      rewrite E in E'. injection E' as -> -> -> ->.
      pose proof (find_conversation_id _ db conv Hfind) as Hid.
      destruct (submit_all_title (turn_id t) ts
                  (save_store (mutate (turn_id t)
                     (fun _ => answered (turn_now t) message text0 conv) db) w)
                  _ (answered (turn_now t) message text0 conv)
                  (load_store_save_store _ _))
        as (db2 & conv2 & Hload2 & Hfind2 & Htitle2).
      * apply (find_mutate _ (fun _ => answered (turn_now t) message text0 conv) db conv Hfind).
        now rewrite answered_id.
      * rewrite answered_messages. now destruct (messages conv).
      * exists db2, conv2. repeat split; auto.
Qed.

(** C10: a rename, a deletion or a turn aimed at one id leaves the
    conversations of every other id in the saved store as they were. *)
Theorem other_conversations_unchanged (i : string) (w w' : World) (db : Db) :
  load_store w = Some db ->
  (exists now new_title, w' = snd (put_conversation now i new_title w))
  \/ w' = snd (delete_conversation i w)
  \/ (exists apiKey fetch now m, w' = snd (post_message apiKey fetch now i m w)) ->
  exists db',
    load_store w' = Some db'
    /\ without i (conversations db') = without i (conversations db).
Proof.
  intros Hload [(now & t & ->)|[->|(apiKey & fetch & now & m & ->)]].
  - unfold put_conversation. rewrite Hload.
    destruct (find_conversation i db) as [conv|] eqn:Hfind; [|now exists db].
    destruct t as [[|c s]|]; try now exists db.
    cbn [snd]. eexists. split; [apply load_store_save_store|].
    apply without_mutate_first. auto.
  - unfold delete_conversation. rewrite Hload.
    destruct (Nat.eqb _ _); [now exists db|].
    cbn [snd]. eexists. split; [apply load_store_save_store|].
    apply without_without.
  - destruct (post_message_cases apiKey fetch now i m w db Hload)
      as [[-> _]|(conv & message & text & Hfind & _ & _ & ->)]; [now exists db|].
    cbn [snd]. eexists. split; [apply load_store_save_store|].
    apply without_mutate_first. intros _ _.
    rewrite answered_id. now apply find_conversation_id with db.
Qed.

(** ** The turn that fails *)

(** Where the [try] block throws, the answer is the error and the world is
    the one before the request. *)
Lemma post_message_thrown (apiKey : option string)
  (fetch : list Message -> FetchResult) (now : Z) (i : string)
  (message : string) (w : World) (db : Db) (conv : Conversation) (e : Failure) :
  load_store w = Some db ->
  find_conversation i db = Some conv ->
  message <> "" ->
  completion apiKey fetch (messages (asked message conv)) = Thrown e ->
  post_message apiKey fetch now i (Some message) w = (InternalError e, w).
Proof.
  intros Hload Hfind Hm Hc. unfold post_message.
  destruct message as [|c s]; [contradiction|].
  rewrite Hload, Hfind. now rewrite Hc.
Qed.

(** No credential, no response, a body that is not JSON and a response that
    is not a success all throw. *)
Lemma completion_throws (apiKey : option string)
  (fetch : list Message -> FetchResult) (history : list Message) :
  apiKey = None \/ apiKey = Some ""
  \/ (exists reason, fetch history = Rejected reason)
  \/ (exists ok reason, fetch history = Responded ok (inl reason))
  \/ (exists data, fetch history = Responded false (inr data)) ->
  exists e, completion apiKey fetch history = Thrown e.
Proof.
  unfold completion.
  intros [->|[->|H]]; [now eexists|now eexists|].
  destruct apiKey as [[|c s]|]; try now eexists.
  destruct H as [(reason & ->)|[(ok & reason & ->)|(data & ->)]];
    [now eexists|now eexists|].
  simpl. destruct data as [| | | | |props]; simpl; now eexists.
Qed.

(** A successful response whose body has no [content], or an empty one,
    throws as well. *)
Lemma completion_throws_without_content (apiKey : option string)
  (fetch : list Message -> FetchResult) (history : list Message)
  (props : list (string * json)) :
  fetch history = Responded true (inr (JObj props)) ->
  lookup "content" props = None \/ lookup "content" props = Some (JArr []) ->
  apiKey = None \/ apiKey = Some ""
  \/ completion apiKey fetch history = Thrown TypeError.
Proof.
  intros Hf Hc. unfold completion. rewrite Hf.
  destruct apiKey as [[|c s]|]; auto.
  right. right. simpl. destruct Hc as [-> | ->]; reflexivity.
Qed.

End Properties.

(* ================================================================== *)
(** * More about the routes *)

(** ** Lists of conversations *)

Lemma mutate_first_Forall (P : Conversation -> Prop) (i : string)
  (f : Conversation -> Conversation) (l : list Conversation) :
  Forall P l -> (forall c, In c l -> id c = i -> P (f c)) ->
  Forall P (mutate_first i f l).
Proof.
  induction 1 as [|x r Hx Hr IH]; intros Hf; simpl; [constructor|].
  destruct (String.eqb_spec (id x) i) as [E|E].
  - constructor; [apply Hf; simpl; auto|exact Hr].
  - constructor; [exact Hx|]. apply IH. intros c Hc. apply Hf. now right.
Qed.

Lemma mutate_first_map {A : Type} (g : Conversation -> A) (i : string)
  (f : Conversation -> Conversation) (l : list Conversation) :
  (forall c, id c = i -> g (f c) = g c) -> map g (mutate_first i f l) = map g l.
Proof.
  intros Hf. induction l as [|x r IH]; simpl; [reflexivity|].
  destruct (String.eqb_spec (id x) i); simpl; [now rewrite Hf|now rewrite IH].
Qed.

Lemma mutate_first_Forall2 (Rel : Conversation -> Conversation -> Prop)
  (i : string) (f : Conversation -> Conversation) (l : list Conversation) :
  (forall c, Rel c c) -> (forall c, id c = i -> Rel c (f c)) ->
  Forall2 Rel l (mutate_first i f l).
Proof.
  intros Hrefl Hf. induction l as [|x r IH]; simpl; [constructor|].
  destruct (String.eqb_spec (id x) i).
  - constructor; [now apply Hf|]. clear IH. induction r; constructor; auto.
  - constructor; auto.
Qed.

(** The conversation [find] returns is the one [mutate_first] changes. *)
Lemma mutate_first_found (i : string) (f : Conversation -> Conversation)
  (l : list Conversation) (conv : Conversation) :
  find (fun c => (id c =? i)%string) l = Some conv ->
  mutate_first i f l = mutate_first i (fun _ => f conv) l.
Proof.
  induction l as [|x r IH]; simpl; [discriminate|].
  destruct (id x =? i)%string; [now intros [= ->]|].
  intros H. now rewrite IH.
Qed.

Lemma held_not_In (i : string) (l : list Conversation) :
  held i l = 0%nat -> ~ In i (map id l).
Proof.
  unfold held. induction l as [|x r IH]; simpl; [tauto|].
  destruct (String.eqb_spec (id x) i); simpl; [discriminate|].
  intros H [E|Hin]; [contradiction|]. now apply IH.
Qed.

Lemma NoDup_map_filter {A B : Type} (g : A -> B) (p : A -> bool) (l : list A) :
  NoDup (map g l) -> NoDup (map g (filter p l)).
Proof.
  induction l as [|x r IH]; simpl; [auto|].
  intros H. inversion H as [|? ? Hx Hr]; subst.
  destruct (p x); simpl; [|auto]. constructor; [|auto].
  rewrite in_map_iff in *. intros (y & E & Hy). apply Hx. exists y.
  split; [exact E|]. now apply filter_In in Hy.
Qed.

Lemma sorted_head_greatest {A : Type} (key : A -> Z) (h : A) (t : list A) :
  StronglySorted (descending key) (h :: t) ->
  forall x, In x (h :: t) -> key x <= key h.
Proof.
  intros Hs x [<-|Hx]; [lia|].
  inversion Hs as [|? ? _ Hall]; subst.
  rewrite Forall_forall in Hall. now apply Hall.
Qed.

Lemma find_conversation_In (i : string) (db : Db) (c : Conversation) :
  find_conversation i db = Some c -> In c (conversations db).
Proof. unfold find_conversation. intros H. now apply find_some in H. Qed.

Lemma find_first_holder (i : string) (pre post : list Conversation)
  (c : Conversation) :
  held i pre = 0%nat -> id c = i ->
  find (fun c => (id c =? i)%string) (pre ++ c :: post) = Some c.
Proof.
  intros Hpre Hc. induction pre as [|x r IH]; simpl.
  - now rewrite Hc, String.eqb_refl.
  - unfold held in Hpre. simpl in Hpre.
    destruct (id x =? i)%string; [discriminate|]. now apply IH.
Qed.

Lemma find_app_found {A : Type} (p : A -> bool) (l l' : list A) (x : A) :
  find p l = Some x -> find p (l ++ l') = Some x.
Proof.
  induction l as [|y r IH]; simpl; [discriminate|].
  destruct (p y); auto.
Qed.

Lemma without_fresh (i : string) (l : list Conversation) :
  held i l = 0%nat -> without i l = l.
Proof.
  unfold held, without. induction l as [|x r IH]; simpl; [reflexivity|].
  destruct (id x =? i)%string; simpl; [discriminate|]. intros H. now rewrite IH.
Qed.

Lemma without_In (i : string) (l : list Conversation) (c : Conversation) :
  In c (without i l) -> In c l.
Proof. unfold without. intros H. now apply filter_In in H. Qed.


Lemma derived_title_nonempty (c : ascii) (s : string) :
  derived_title (String c s) <> "".
Proof. unfold derived_title, slice0. simpl. discriminate. Qed.

Lemma derived_title_length (message : string) :
  (String.length (derived_title message) <= 33)%nat.
Proof.
  unfold derived_title.
  destruct (slice0_prefix 30 message) as (rest & _ & Hlen).
  assert (Happ : forall a b, String.length (a ++ b)%string
                             = (String.length a + String.length b)%nat).
  { induction a; simpl; intros; [reflexivity|now rewrite IHa]. }
  rewrite Happ, Hlen.
  destruct (30 <? String.length message)%nat; cbn [String.length]; lia.
Qed.

Section Coverage.

Context {R : Runtime} {L : JSONLaws R}.

(** ** One request *)



(** ** GET /api/conversations/:id *)

(** X1: an id that no conversation holds is not found; otherwise the answer
    is the first conversation of the store that holds it; the world stays
    as it is. *)
Theorem get_conversation_first_holder (i : string) (w : World) (db : Db) :
  load_store w = Some db ->
  (held i (conversations db) = 0%nat -> get_conversation i w = (NotFound, w))
  /\ (forall pre c post,
        conversations db = pre ++ c :: post ->
        held i pre = 0%nat -> id c = i ->
        get_conversation i w = (ConversationJson c, w)).
Proof.
  intros Hload. unfold get_conversation, find_conversation. rewrite Hload.
  split.
  - intros H. now rewrite (proj1 (held_find i _) H).
  - intros pre c post -> Hpre Hc. now rewrite (find_first_holder i pre post c).
Qed.

(** ** POST /api/conversations *)

(** X2: a new conversation is put behind the ones there are, which stay as
    they are; it is called "New Chat", has no messages and the clock reading
    as id; the store is written once.  If no conversation held that id, the
    new one is found under it; if one did, the older one is still the one
    found. *)
Theorem post_conversation_appends (t_id t_created t_updated : Z) (w : World)
  (db : Db) :
  load_store w = Some db ->
  let c := newConv t_id t_created t_updated in
  exists w',
    post_conversation t_id t_created t_updated w = (ConversationJson c, w')
    /\ title c = "New Chat" /\ messages c = []
    /\ writes w' = S (writes w)
    /\ load_store w' = Some {| conversations := conversations db ++ [c] |}
    /\ (held (id c) (conversations db) = 0%nat ->
          get_conversation (id c) w' = (ConversationJson c, w'))
    /\ (forall older, find_conversation (id c) db = Some older ->
          get_conversation (id c) w' = (ConversationJson older, w')).
Proof.
  intros Hload c. unfold post_conversation. rewrite Hload. fold c.
  eexists. split; [reflexivity|]. split; [reflexivity|]. split; [reflexivity|].
  split; [reflexivity|]. split; [apply load_store_save_store|].
  unfold get_conversation, find_conversation. rewrite load_store_save_store.
  cbn [conversations]. split.
  - intros H.
    now rewrite (find_first_holder (id c) (conversations db) [] c H eq_refl).
  - intros older H. unfold find_conversation in H.
    now rewrite (find_app_found _ _ _ _ H).
Qed.


(** X4: making a conversation under an id nobody holds and deleting that id
    gives back the store there was. *)
Theorem create_then_delete (t_id t_created t_updated : Z) (w : World) (db : Db) :
  load_store w = Some db ->
  held (Number_toString t_id) (conversations db) = 0%nat ->
  let w1 := snd (post_conversation t_id t_created t_updated w) in
  fst (delete_conversation (Number_toString t_id) w1) = SuccessJson
  /\ load_store (snd (delete_conversation (Number_toString t_id) w1)) = Some db.
Proof.
  intros Hload Hfresh w1.
  assert (Hload1 : load_store w1
                   = Some {| conversations := conversations db
                               ++ [newConv t_id t_created t_updated] |}).
  { unfold w1, post_conversation. rewrite Hload. apply load_store_save_store. }
  unfold delete_conversation. rewrite Hload1. cbn [conversations].
  assert (Hkept : without (Number_toString t_id)
                    (conversations db ++ [newConv t_id t_created t_updated])
                  = conversations db).
  { unfold without. rewrite filter_app. fold (without (Number_toString t_id) (conversations db)).
    rewrite (without_fresh _ _ Hfresh). simpl. rewrite String.eqb_refl. simpl.
    apply app_nil_r. }
  rewrite Hkept, length_app. simpl.
  destruct (Nat.eqb_spec (List.length (conversations db))
              (List.length (conversations db) + 1)) as [E|_]; [lia|].
  cbn [fst snd]. split; [reflexivity|].
  rewrite load_store_save_store. now destruct db.
Qed.

(** ** Every route *)

(** X5: a request that is answered with an error leaves the file and the
    count of writes as they were, and no request writes more than once. *)
Theorem error_answers_write_nothing (r : Request) (w : World) :
  (is_error (fst (handle r w)) = true -> snd (handle r w) = w)
  /\ (writes (snd (handle r w)) = writes w
      \/ writes (snd (handle r w)) = S (writes w)).
Proof.
  destruct r as [|i|t1 t2 t3|now i t|i|apiKey fetch now i m]; simpl.
  - unfold get_conversations. destruct (load_store w); simpl; auto.
  - unfold get_conversation. destruct (load_store w) as [db|]; simpl; auto.
    destruct (find_conversation i db); simpl; auto.
  - unfold post_conversation. destruct (load_store w); simpl; auto.
    split; [discriminate|auto].
  - unfold put_conversation. destruct (load_store w) as [db|]; simpl; auto.
    destruct (find_conversation i db); simpl; auto.
    destruct t as [[|ch s]|]; simpl; auto. split; [discriminate|auto].
  - unfold delete_conversation. destruct (load_store w) as [db|]; simpl; auto.
    destruct (Nat.eqb _ _); simpl; auto. split; [discriminate|auto].
  - unfold post_message. destruct m as [[|ch s]|]; simpl; auto.
    destruct (load_store w) as [db|]; simpl; auto.
    destruct (find_conversation i db); simpl; auto.
    destruct (completion _ _ _); simpl; auto. split; [discriminate|auto].
Qed.

(** ** POST /api/conversations/:id/message *)

(** X6: the message is checked first, the conversation second, the
    credential third: without a message the answer is 400 whatever the id,
    and with a message for an id nobody holds it is 404 whether or not there
    is a credential or a service; nothing is written in either case. *)
Theorem post_message_error_order (apiKey : option string)
  (fetch : list Message -> FetchResult) (now : Z) (i : string) (w : World)
  (db : Db) :
  load_store w = Some db ->
  post_message apiKey fetch now i None w = (BadRequest, w)
  /\ post_message apiKey fetch now i (Some "") w = (BadRequest, w)
  /\ (held i (conversations db) = 0%nat ->
        forall c s,
          post_message apiKey fetch now i (Some (String c s)) w = (NotFound, w)).
Proof.
  intros Hload. split; [reflexivity|]. split; [reflexivity|].
  intros H c s. unfold post_message, find_conversation. rewrite Hload.
  now rewrite (proj1 (held_find i _) H).
Qed.

(** X7: a turn that the service answers asks the service with the messages
    there were and the new user message behind them, and saves the
    conversation with that message and the reply behind the messages there
    were, its id and [createdAt] as they were and [updatedAt] from the clock;
    the store is written once and the reply carries the id. *)
Theorem answered_turn_appends (apiKey : option string)
  (fetch : list Message -> FetchResult) (now : Z) (i : string)
  (c : ascii) (s : string) (text : option json) (w : World) (db : Db)
  (conv : Conversation) :
  let message := String c s in
  load_store w = Some db ->
  find_conversation i db = Some conv ->
  completion apiKey fetch (messages conv ++ [userMsg message]) = Returned text ->
  exists w' conv' t,
    post_message apiKey fetch now i (Some message) w = (ReplyJson text i t, w')
    /\ writes w' = S (writes w)
    /\ get_conversation i w' = (ConversationJson conv', w')
    /\ messages conv'
       = messages conv ++ [userMsg message;
                           {| role := assistant; content := text |}]
    /\ id conv' = id conv /\ createdAt conv' = createdAt conv
    /\ updatedAt conv' = toISOString now /\ title conv' = t.
Proof.
  intros message Hload Hfind Hc.
  assert (Ha : messages (asked message conv) = messages conv ++ [userMsg message]).
  { unfold asked. now destruct (auto_title_cases message conv) as (_ & -> & _). }
  pose proof (find_conversation_id i db conv Hfind) as Hid.
  exists (save_store (mutate i (fun _ => answered now message text conv) db) w),
         (answered now message text conv), (title (asked message conv)).
  split.
  - unfold post_message. fold message. rewrite Hload, Hfind, Ha, Hc. cbv zeta.
    now rewrite answered_id, answered_title, Hid.
  - split; [reflexivity|]. split.
    + unfold get_conversation. rewrite load_store_save_store.
      rewrite (find_mutate i (fun _ => answered now message text conv) db conv Hfind);
        [reflexivity|now rewrite answered_id].
    + split; [apply answered_messages|]. split; [apply answered_id|].
      split; [|split; [reflexivity|apply answered_title]].
      unfold answered, asked. simpl.
      now destruct (auto_title_cases message conv) as (_ & _ & -> & _).
Qed.

(** X10: a turn for which there is no credential, no response, a body that
    is not JSON, a response that is not a success, or a successful body
    without [content] or with an empty one is answered with the error, and
    the world is the one before the request. *)
Theorem failed_turn_leaves_store (apiKey : option string)
  (fetch : list Message -> FetchResult) (now : Z) (i : string)
  (c : ascii) (s : string) (w : World) (db : Db) (conv : Conversation) :
  let message := String c s in
  let history := messages conv ++ [userMsg message] in
  load_store w = Some db ->
  find_conversation i db = Some conv ->
  apiKey = None \/ apiKey = Some ""
  \/ (exists reason, fetch history = Rejected reason)
  \/ (exists ok reason, fetch history = Responded ok (inl reason))
  \/ (exists data, fetch history = Responded false (inr data))
  \/ (exists props, fetch history = Responded true (inr (JObj props))
                    /\ (lookup "content" props = None
                        \/ lookup "content" props = Some (JArr []))) ->
  exists e, post_message apiKey fetch now i (Some message) w = (InternalError e, w).
Proof.
  intros message history Hload Hfind H.
  assert (Ha : messages (asked message conv) = history).
  { unfold asked. now destruct (auto_title_cases message conv) as (_ & -> & _). }
  assert (Hc : exists e, completion apiKey fetch history = Thrown e).
  { destruct H as [H|[H|[H|[H|[H|(props & Hf & Hp)]]]]];
      try (apply completion_throws; tauto).
    destruct (completion_throws_without_content apiKey fetch history props Hf Hp)
      as [->|[->|E]]; eexists; [reflexivity|reflexivity|exact E]. }
  destruct Hc as (e & Hc). exists e.
  apply (post_message_thrown apiKey fetch now i message w db conv e Hload Hfind);
    [discriminate|now rewrite Ha].
Qed.

(** X14: the error of a response that is not a success carries the
    message of the service where its body has a non-empty [error.message],
    and "API Error" where the body is an object without [error]. *)
Theorem upstream_error_message (k : ascii) (key : string)
  (fetch : list Message -> FetchResult) (history : list Message)
  (props : list (string * json)) :
  fetch history = Responded false (inr (JObj props)) ->
  (forall eprops c s,
     lookup "error" props = Some (JObj eprops) ->
     lookup "message" eprops = Some (JStr (String c s)) ->
     completion (Some (String k key)) fetch history
     = Thrown (ApiError (String c s)))
  /\ (lookup "error" props = None ->
        completion (Some (String k key)) fetch history
        = Thrown (ApiError "API Error")).
Proof.
  intros Hf. unfold completion. rewrite Hf. simpl. split.
  - intros eprops c s -> . simpl. now intros ->.
  - now intros ->.
Qed.

(** X15: the title made from a message that is not empty is not empty, has
    at most 33 units, and begins with the message or with its first 30
    units. *)
Theorem derived_title_bounds (c : ascii) (s : string) :
  let message := String c s in
  derived_title message <> ""
  /\ (String.length (derived_title message) <= 33)%nat
  /\ exists prefix rest more,
       message = (prefix ++ rest)%string
       /\ derived_title message = (prefix ++ more)%string
       /\ String.length prefix = Nat.min 30 (String.length message).
Proof.
  intros message. split; [apply derived_title_nonempty|].
  split; [apply derived_title_length|].
  destruct (slice0_prefix 30 message) as (rest & E & Hlen).
  exists (slice0 30 message), rest. eexists. split; [exact E|].
  split; [reflexivity|exact Hlen].
Qed.

(** ** GET /api/conversations, whatever the dates *)

(** X13: whatever the [updatedAt] fields hold, the answer has one summary
    for every conversation and no other, and nothing is written. *)
Theorem get_conversations_complete (w : World) (db : Db) :
  load_store w = Some db ->
  exists l,
    get_conversations w = (SummariesJson l, w)
    /\ Permutation l (map summary (conversations db))
    /\ List.length l = List.length (conversations db).
Proof.
  intros Hload. unfold get_conversations. rewrite Hload.
  eexists. split; [reflexivity|].
  pose proof (Array_sort_perm by_recency (map summary (conversations db))) as Hp.
  split; [exact Hp|]. rewrite (Permutation_length Hp). apply length_map.
Qed.

(** ** What every sequence of requests keeps *)




(** X11: if the ids of the store are pairwise different, they are after
    every request, unless the request makes a conversation under an id that
    is held already. *)
Theorem unique_ids_kept (r : Request) (w : World) (db : Db) :
  load_store w = Some db ->
  NoDup (map id (conversations db)) ->
  (forall t_id t_created t_updated,
     r = POST_conversation t_id t_created t_updated ->
     held (Number_toString t_id) (conversations db) = 0%nat) ->
  exists db',
    load_store (snd (handle r w)) = Some db'
    /\ NoDup (map id (conversations db')).
Proof.
  intros Hload Hnd Hfresh.
  destruct r as [|i|t1 t2 t3|now i t|i|apiKey fetch now i m]; simpl.
  - unfold get_conversations. rewrite Hload. now exists db.
  - unfold get_conversation. rewrite Hload.
    destruct (find_conversation i db); now exists db.
  - unfold post_conversation. rewrite Hload. cbn [snd]. eexists.
    split; [apply load_store_save_store|]. cbn [conversations].
    rewrite map_app. simpl.
    apply NoDup_app; [exact Hnd|repeat constructor; auto|].
    intros x Hx [<-|[]]. revert Hx. apply held_not_In.
    now apply (Hfresh t1 t2 t3).
  - unfold put_conversation. rewrite Hload.
    destruct (find_conversation i db); [|now exists db].
    destruct t as [[|ch s]|]; try now exists db.
    cbn [snd]. eexists. split; [apply load_store_save_store|].
    cbn [conversations mutate]. now rewrite mutate_first_map.
  - unfold delete_conversation. rewrite Hload.
    destruct (Nat.eqb _ _); [now exists db|].
    cbn [snd]. eexists. split; [apply load_store_save_store|].
    now apply NoDup_map_filter.
  - destruct (post_message_cases apiKey fetch now i m w db Hload)
      as [[-> _]|(conv & message & text & Hfind & _ & _ & ->)]; [now exists db|].
    cbn [snd]. eexists. split; [apply load_store_save_store|].
    cbn [conversations mutate]. rewrite mutate_first_map; [exact Hnd|].
    intros c0 Hc0. rewrite answered_id.
    now rewrite (find_conversation_id i db conv Hfind).
Qed.

(** X12: a rename and a turn keep the conversations of the store in their
    number and order, each with its id and its [createdAt], and with the
    messages it had in front of any new ones. *)
Theorem rename_and_turn_keep_identity (r : Request) (w : World) (db : Db) :
  load_store w = Some db ->
  (exists now i t, r = PUT_conversation now i t)
  \/ (exists apiKey fetch now i m, r = POST_message apiKey fetch now i m) ->
  exists db',
    load_store (snd (handle r w)) = Some db'
    /\ map id (conversations db') = map id (conversations db)
    /\ map createdAt (conversations db') = map createdAt (conversations db)
    /\ Forall2 (fun c c' => exists more, messages c' = messages c ++ more)
         (conversations db) (conversations db').
Proof.
  intros Hload Hr.
  assert (Hsame : forall l : list Conversation,
            Forall2 (fun c c' => exists more, messages c' = messages c ++ more) l l).
  { induction l; constructor; auto. exists []. now rewrite app_nil_r. }
  destruct Hr as [(now & i & t & ->)|(apiKey & fetch & now & i & m & ->)]; simpl.
  - unfold put_conversation. rewrite Hload.
    destruct (find_conversation i db) as [conv|]; [|now exists db].
    destruct t as [[|ch s]|]; try now exists db.
    cbn [snd]. eexists. split; [apply load_store_save_store|].
    cbn [conversations mutate]. rewrite !mutate_first_map by reflexivity.
    split; [reflexivity|]. split; [reflexivity|].
    apply mutate_first_Forall2.
    + intros c0. exists []. now rewrite app_nil_r.
    + intros c0 _. exists []. simpl. now rewrite app_nil_r.
  - destruct (post_message_cases apiKey fetch now i m w db Hload)
      as [[-> _]|(conv & message & text & Hfind & _ & _ & ->)]; [now exists db|].
    cbn [snd]. eexists. split; [apply load_store_save_store|].
    cbn [conversations mutate].
    assert (Hcr : forall c0, createdAt (answered now message text c0) = createdAt c0).
    { intros c0. unfold answered, asked. simpl.
      now destruct (auto_title_cases message c0) as (_ & _ & -> & _). }
    rewrite <- (mutate_first_found i (answered now message text)
                  (conversations db) conv Hfind).
    rewrite !mutate_first_map by (intros; auto using answered_id).
    split; [reflexivity|]. split; [reflexivity|].
    apply mutate_first_Forall2.
    + intros c0. exists []. now rewrite app_nil_r.
    + intros c0 _. eexists. apply answered_messages.
Qed.

(** ** The conversation that was just updated *)

Lemma latest_listed_first (l : list Conversation) (conv' : Conversation) (now : Z) :
  Date_value (updatedAt conv') = Some now ->
  In conv' l ->
  Forall (fun e => e = conv'
                   \/ exists t, Date_value (updatedAt e) = Some t /\ t < now) l ->
  exists rest, Array_sort by_recency (map summary l) = summary conv' :: rest.
Proof.
  intros Hnow Hin Hall.
  set (good := fun s : Summary.t => Date_value (Summary.updatedAt s) <> None).
  assert (Hgood : Forall good (map summary l)).
  { rewrite Forall_map. eapply Forall_impl; [|exact Hall].
    intros e [->|(t & Ht & _)]; unfold good; simpl; congruence. }
  pose proof (Array_sort_perm by_recency (map summary l)) as Hperm.
  pose proof (Array_sort_sorted by_recency time_of good SortCompare_by_recency
                (map summary l) Hgood) as Hsorted.
  assert (Hin' : In (summary conv') (Array_sort by_recency (map summary l))).
  { eapply Permutation_in; [symmetry; exact Hperm|]. now apply in_map. }
  destruct (Array_sort by_recency (map summary l)) as [|h rest] eqn:E;
    [contradiction|].
  exists rest. f_equal.
  pose proof (sorted_head_greatest time_of h rest Hsorted _ Hin') as Hle.
  assert (Hh : In h (map summary l)).
  { eapply Permutation_in; [exact Hperm|]. now left. }
  apply in_map_iff in Hh as (e & <- & He).
  rewrite Forall_forall in Hall.
  destruct (Hall e He) as [->|(t & Ht & Hlt)]; [reflexivity|].
  exfalso. unfold time_of in Hle. simpl in Hle. rewrite Hnow, Ht in Hle. lia.
Qed.

(** X16: when every conversation was last updated before the clock reading
    of a request, and the runtime reads the reading back from its ISO text,
    then after a rename with a title, or a turn that is answered, the list
    of summaries begins with the conversation that was renamed or
    answered. *)
Theorem updated_conversation_listed_first (r : Request) (w : World) (db : Db)
  (now : Z) (i : string) :
  load_store w = Some db ->
  Forall (fun c => exists t, Date_value (updatedAt c) = Some t /\ t < now)
    (conversations db) ->
  Date_value (toISOString now) = Some now ->
  (exists new_title, r = PUT_conversation now i (Some new_title)
                     /\ new_title <> "")
  \/ (exists apiKey fetch m, r = POST_message apiKey fetch now i m) ->
  is_error (fst (handle r w)) = false ->
  exists conv' rest,
    get_conversation i (snd (handle r w))
    = (ConversationJson conv', snd (handle r w))
    /\ updatedAt conv' = toISOString now
    /\ fst (get_conversations (snd (handle r w)))
       = SummariesJson (summary conv' :: rest).
Proof.
  intros Hload Hold Hnow Hr Hok.
  assert (Hkey : forall conv conv',
            find_conversation i db = Some conv -> id conv' = i ->
            updatedAt conv' = toISOString now ->
            let w' := save_store (mutate i (fun _ => conv') db) w in
            exists conv'' rest,
              get_conversation i w' = (ConversationJson conv'', w')
              /\ updatedAt conv'' = toISOString now
              /\ fst (get_conversations w') = SummariesJson (summary conv'' :: rest)).
  { intros conv conv' Hfind Hid Hup w'.
    assert (Hfind' : find_conversation i (mutate i (fun _ => conv') db) = Some conv')
      by now apply (find_mutate i (fun _ => conv') db conv).
    destruct (latest_listed_first (mutate_first i (fun _ => conv') (conversations db))
                conv' now) as (rest & E).
    - now rewrite Hup.
    - now apply (find_conversation_In i (mutate i (fun _ => conv') db)).
    - apply mutate_first_Forall; [|auto].
      eapply Forall_impl; [|exact Hold]. auto.
    - exists conv', rest. unfold w', get_conversation, get_conversations.
      rewrite load_store_save_store, Hfind'. cbn [fst conversations mutate].
      now rewrite E. }
  destruct Hr as [(t & -> & Ht)|(apiKey & fetch & m & ->)]; simpl in *.
  - unfold put_conversation in *. rewrite Hload in *.
    destruct (find_conversation i db) as [conv|] eqn:Hfind; [|discriminate].
    destruct t as [|c s]; [contradiction|]. cbn [snd].
    unfold mutate.
    rewrite (mutate_first_found i _ (conversations db) conv Hfind).
    apply (Hkey conv); [reflexivity| |reflexivity].
    simpl. now apply find_conversation_id with db.
  - destruct (post_message_cases apiKey fetch now i m w db Hload)
      as [[_ Hno]|(conv & message & text & Hfind & _ & _ & E)].
    + exfalso. unfold post_message in *. destruct m as [[|c s]|]; try discriminate.
      rewrite Hload in *.
      destruct (find_conversation i db); [|discriminate].
      destruct (completion _ _ _); [|discriminate].
      now apply (Hno _ _ _ eq_refl).
    + rewrite E. cbn [snd]. apply (Hkey conv); [exact Hfind| |reflexivity].
      rewrite answered_id. now apply find_conversation_id with db.
Qed.

(** X17: if every [updatedAt] of the store is the text of a date, and the
    runtime reads the clock readings of a request back as dates, every
    [updatedAt] is the text of a date after the request. *)
Theorem dates_stay_readable (r : Request) (w : World) (db : Db) :
  load_store w = Some db ->
  Forall dated (conversations db) ->
  Forall (fun t => Date_value (toISOString t) <> None) (timestamps r) ->
  exists db',
    load_store (snd (handle r w)) = Some db'
    /\ Forall dated (conversations db').
Proof.
  intros Hload Hd Hclock.
  destruct r as [|i|t1 t2 t3|now i t|i|apiKey fetch now i m]; simpl in *.
  - unfold get_conversations. rewrite Hload. now exists db.
  - unfold get_conversation. rewrite Hload.
    destruct (find_conversation i db); now exists db.
  - unfold post_conversation. rewrite Hload. cbn [snd]. eexists.
    split; [apply load_store_save_store|]. cbn [conversations].
    apply Forall_app. split; [exact Hd|]. constructor; [|constructor].
    inversion Hclock as [|? ? _ H2]; subst. now inversion H2.
  - unfold put_conversation. rewrite Hload.
    destruct (find_conversation i db) as [conv|]; [|now exists db].
    destruct t as [[|ch s]|]; try now exists db.
    cbn [snd]. eexists. split; [apply load_store_save_store|].
    apply mutate_first_Forall; [exact Hd|]. intros c0 _ _.
    now inversion Hclock.
  - unfold delete_conversation. rewrite Hload.
    destruct (Nat.eqb _ _); [now exists db|].
    cbn [snd]. eexists. split; [apply load_store_save_store|].
    cbn [conversations]. rewrite Forall_forall in *. intros c0 Hc0.
    apply Hd. now apply without_In with i.
  - destruct (post_message_cases apiKey fetch now i m w db Hload)
      as [[-> _]|(conv & message & text & Hfind & _ & _ & ->)]; [now exists db|].
    cbn [snd]. eexists. split; [apply load_store_save_store|].
    apply mutate_first_Forall; [exact Hd|]. intros _ _ _.
    now inversion Hclock.
Qed.

End Coverage.

(* ================================================================== *)
(** * The properties on the concrete runtime *)

Import Runs.

#[local] Existing Instance Node.runtime.
#[local] Existing Instance Node_laws.

(** The epoch and a later time in ISO format, and back. *)
Example to_iso_epoch : Node.to_iso 0 = "1970-01-01T00:00:00.000Z".
Proof. reflexivity. Qed.

Example to_iso_noon : Node.to_iso noon = "2024-05-01T12:00:00.000Z".
Proof. vm_compute. reflexivity. Qed.

Example of_iso_noon : Node.of_iso "2024-05-01T12:00:00.000Z" = Some noon.
Proof. vm_compute. reflexivity. Qed.

(** The summaries of [three]: the latest first, the two of 09:00 in the
    order of the store. *)
Example summaries_of_three :
  fst (get_conversations (saved three))
  = SummariesJson
      [{| Summary.id := "1714557600000"; Summary.title := "Sorting in place";
          Summary.updatedAt := "2024-05-01T10:30:00.000Z" |};
       {| Summary.id := "1714554000000"; Summary.title := "New Chat";
          Summary.updatedAt := "2024-05-01T09:00:00.000Z" |};
       {| Summary.id := "1714561200000"; Summary.title := "Closures";
          Summary.updatedAt := "2024-05-01T09:00:00.000Z" |}].
Proof. vm_compute. reflexivity. Qed.

(** The errors of the [try] block. *)
Example completion_without_key :
  completion None (answers "Hello") [userMsg question] = Thrown MissingApiKey.
Proof. reflexivity. Qed.

Example completion_overloaded :
  completion (Some "sk-key")
    (fun _ => Responded false
                (inr (JObj [("error", JObj [("message", JStr "Overloaded")])])))
    [userMsg question]
  = Thrown (ApiError "Overloaded").
Proof. reflexivity. Qed.

Example completion_error_without_message :
  completion (Some "sk-key") (fun _ => Responded false (inr (JObj [])))
    [userMsg question]
  = Thrown (ApiError "API Error").
Proof. reflexivity. Qed.

Example completion_empty_content :
  completion (Some "sk-key")
    (fun _ => Responded true (inr (JObj [("content", JArr [])])))
    [userMsg question]
  = Thrown TypeError.
Proof. reflexivity. Qed.

Example completion_text :
  completion (Some "sk-key") (answers "Use two pointers.") [userMsg question]
  = Returned (Some (JStr "Use two pointers.")).
Proof. reflexivity. Qed.

(** A turn that fails leaves the file and the count of writes as they were. *)
Example failed_turn_not_saved :
  post_message None (answers "Hello") noon (id untitled) (Some question)
    (saved three)
  = (InternalError MissingApiKey, saved three).
Proof. vm_compute. reflexivity. Qed.

Lemma get_conversations_sorted_witness :
  exists l,
    get_conversations (saved three) = (SummariesJson l, saved three)
    /\ Permutation l (map summary (conversations three))
    /\ StronglySorted (descending time_of) l
    /\ forall t, filter (fun s => time_of s =? t) l
                 = filter (fun s => time_of s =? t) (map summary (conversations three)).
Proof.
  apply (get_conversations_sorted (saved three) three).
  - vm_compute. reflexivity.
  - repeat constructor; vm_compute; discriminate.
Defined.

Lemma put_conversation_rename_witness :
  put_conversation noon (id untitled) None (saved three)
  = (ConversationJson untitled, saved three)
  /\ put_conversation noon (id untitled) (Some "") (saved three)
     = (ConversationJson untitled, saved three)
  /\ forall c s,
       exists w',
         put_conversation noon (id untitled) (Some (String c s)) (saved three)
         = (ConversationJson
              {| id := id untitled; title := String c s;
                 messages := messages untitled; createdAt := createdAt untitled;
                 updatedAt := toISOString noon |}, w')
         /\ writes w' = S (writes (saved three))
         /\ get_conversation (id untitled) w'
            = (ConversationJson
                 {| id := id untitled; title := String c s;
                    messages := messages untitled; createdAt := createdAt untitled;
                    updatedAt := toISOString noon |}, w').
Proof.
  apply (put_conversation_rename (saved three) three (id untitled) untitled noon).
  - vm_compute. reflexivity.
  - vm_compute. reflexivity.
Defined.

Lemma delete_conversation_exact_witness :
  (0 < held (id untitled) (conversations three))%nat
  /\ exists w',
       delete_conversation (id untitled) (saved three) = (SuccessJson, w')
       /\ get_conversation (id untitled) w' = (NotFound, w').
Proof.
  split; [vm_compute; lia|].
  destruct (delete_conversation_exact (saved three) three (id untitled))
    as [_ H]; [vm_compute; reflexivity|].
  destruct H as (w' & E & _ & _ & _ & _ & Hget); [vm_compute; lia|].
  exists w'. split; [exact E|exact Hget].
Defined.

(** Two conversations made in one millisecond hold one id, and deleting
    that id removes both: the collection shrinks by two. *)
Lemma delete_removes_both :
  let w := snd (post_conversations same_millisecond fresh) in
  exists db db',
    load_store w = Some db
    /\ find_conversation "1714564800000" db <> None
    /\ fst (delete_conversation "1714564800000" w) = SuccessJson
    /\ load_store (snd (delete_conversation "1714564800000" w)) = Some db'
    /\ (List.length (conversations db') + 1 <> List.length (conversations db))%nat.
Proof.
  eexists. eexists.
  split; [vm_compute; reflexivity|].
  split; [vm_compute; discriminate|].
  split; [vm_compute; reflexivity|].
  split; [vm_compute; reflexivity|].
  vm_compute. discriminate.
Defined.

Lemma post_conversations_distinct_witness :
  NoDup (map created_id
           (fst (post_conversations [(noon, noon, noon); (noon + 1, noon + 1, noon + 1)]
                   (saved three)))).
Proof.
  apply (post_conversations_distinct
           [(noon, noon, noon); (noon + 1, noon + 1, noon + 1)] (saved three) three).
  - vm_compute. reflexivity.
  - repeat constructor; simpl; intuition discriminate.
Defined.

(** Two requests served in one millisecond answer with one id. *)
Lemma same_millisecond_same_id :
  map created_id (fst (post_conversations same_millisecond fresh))
  = [Some "1714564800000"; Some "1714564800000"]
  /\ ~ NoDup (map created_id (fst (post_conversations same_millisecond fresh))).
Proof.
  split; [vm_compute; reflexivity|].
  intros H. vm_compute in H. inversion H as [|x l Hin _]. apply Hin. now left.
Defined.

Lemma loadDb_never_fails_witness :
  loadDb fresh = empty_document
  /\ loadDb {| db_file := Unreadable; writes := 0 |} = empty_document
  /\ loadDb {| db_file := Text "{ conversations: ["; writes := 0 |} = empty_document
  /\ loadDb (saved three) = of_db three.
Proof.
  destruct (loadDb_never_fails fresh) as (H1 & _).
  destruct (loadDb_never_fails {| db_file := Unreadable; writes := 0 |})
    as (_ & H2 & _).
  destruct (loadDb_never_fails
              {| db_file := Text "{ conversations: ["; writes := 0 |})
    as (_ & _ & H3 & _).
  destruct (loadDb_never_fails (saved three)) as (_ & _ & _ & H4 & _).
  split; [apply H1; reflexivity|]. split; [apply H2; reflexivity|].
  split; [apply (H3 _ eq_refl); vm_compute; reflexivity|].
  apply (H4 _ _ eq_refl). vm_compute. reflexivity.
Defined.

Lemma save_load_round_trip_witness :
  load_store (save_store three fresh) = Some three.
Proof. apply (save_load_round_trip three fresh). Defined.

Lemma first_turn_title_witness :
  title (asked question untitled) = "How do I reverse a string in p..."
  /\ exists w' conv',
       post_message (Some "sk-key") (answers "Use two pointers.") noon
         (id untitled) (Some question) (saved three)
       = (ReplyJson (Some (JStr "Use two pointers.")) (id untitled)
            (derived_title question), w')
       /\ get_conversation (id untitled) w' = (ConversationJson conv', w')
       /\ title conv' = derived_title question.
Proof.
  destruct (first_turn_title (Some "sk-key") (answers "Use two pointers.") noon
              (id untitled) "H" "ow do I reverse a string in place?"
              (saved three) three untitled)
    as (Htitle & _ & _ & Hreply); try (vm_compute; reflexivity).
  split; [exact Htitle|].
  apply Hreply. reflexivity.
Defined.

Lemma title_derived_once_witness :
  exists db2 conv2,
    load_store
      (submit_all [one_turn (id untitled) "And in Python?";
                   one_turn "1714557600000" "New Chat"]
         (snd (submit (one_turn (id untitled) question) (saved three))))
    = Some db2
    /\ find_conversation (id untitled) db2 = Some conv2
    /\ title conv2 = "How do I reverse a string in p...".
Proof.
  destruct (title_derived_once (one_turn (id untitled) question) (saved three)
              three untitled) as [_ H]; try (vm_compute; reflexivity).
  apply (H (Some (JStr "Use two pointers.")) (id untitled)
           "How do I reverse a string in p..."
           (snd (submit (one_turn (id untitled) question) (saved three)))).
  vm_compute. reflexivity.
Defined.

Lemma other_conversations_unchanged_witness :
  exists db',
    load_store (snd (delete_conversation (id untitled) (saved three))) = Some db'
    /\ without (id untitled) (conversations db')
       = without (id untitled) (conversations three).
Proof.
  apply (other_conversations_unchanged (id untitled) (saved three) _ three).
  - vm_compute. reflexivity.
  - right. left. reflexivity.
Defined.

(** C1, where the code departs from it: the service answers with success
    and a first content block that has no text.  The turn does not fail: it
    is answered with a reply whose content is undefined, and the store is
    written with the user message and an assistant message without
    content. *)
Theorem answer_without_text_is_saved :
  completion (Some "sk-key") answers_without_text [userMsg question]
  = Returned None
  /\ exists w',
       post_message (Some "sk-key") answers_without_text noon (id untitled)
         (Some question) (saved three)
       = (ReplyJson None (id untitled) (derived_title question), w')
       /\ writes w' = S (writes (saved three))
       /\ get_conversation (id untitled) (saved three)
          = (ConversationJson untitled, saved three)
       /\ get_conversation (id untitled) w'
          = (ConversationJson
               {| id := id untitled; title := derived_title question;
                  messages := [userMsg question;
                               {| role := assistant; content := None |}];
                  createdAt := createdAt untitled;
                  updatedAt := toISOString noon |}, w').
Proof.
  split; [reflexivity|].
  eexists. split; [vm_compute; reflexivity|].
  split; [reflexivity|]. split; vm_compute; reflexivity.
Qed.

(** ** More runs *)

Lemma get_conversation_first_holder_witness :
  get_conversation "1714550000000" (saved three) = (NotFound, saved three)
  /\ get_conversation (id sorting) (saved three)
     = (ConversationJson sorting, saved three).
Proof.
  split.
  - apply (get_conversation_first_holder "1714550000000" (saved three) three);
      vm_compute; reflexivity.
  - destruct (get_conversation_first_holder (id sorting) (saved three) three)
      as [_ H]; [vm_compute; reflexivity|].
    apply (H [untitled] sorting
             [chat "1714561200000" "Closures"
                [userMsg "Closures";
                 {| role := assistant; content := Some (JStr "A closure is...") |}]
                "2024-05-01T09:00:00.000Z"]); reflexivity.
Defined.

Lemma post_conversation_appends_witness :
  exists w',
    post_conversation noon noon noon (saved three)
    = (ConversationJson (newConv noon noon noon), w')
    /\ load_store w'
       = Some {| conversations := conversations three ++ [newConv noon noon noon] |}
    /\ get_conversation "1714564800000" w'
       = (ConversationJson (newConv noon noon noon), w').
Proof.
  destruct (post_conversation_appends noon noon noon (saved three) three)
    as (w' & E & _ & _ & _ & Hload & Hget & _); [vm_compute; reflexivity|].
  exists w'. split; [exact E|]. split; [exact Hload|].
  apply Hget. vm_compute. reflexivity.
Defined.


Lemma create_then_delete_witness :
  load_store
    (snd (delete_conversation "1714564800000"
            (snd (post_conversation noon noon noon (saved three)))))
  = Some three.
Proof.
  apply (create_then_delete noon noon noon (saved three) three);
    vm_compute; reflexivity.
Defined.

Lemma post_message_error_order_witness :
  post_message None overloaded noon "1714550000000" None (saved three)
  = (BadRequest, saved three)
  /\ post_message None overloaded noon "1714550000000" (Some question) (saved three)
     = (NotFound, saved three).
Proof.
  destruct (post_message_error_order None overloaded noon "1714550000000"
              (saved three) three) as (H1 & _ & H3);
    [vm_compute; reflexivity|].
  split; [exact H1|]. apply H3. vm_compute. reflexivity.
Defined.

Lemma answered_turn_appends_witness :
  exists w' conv' t,
    post_message (Some "sk-key") (answers "Use a key function.") noon
      (id sorting) (Some "And by length?") (saved three)
    = (ReplyJson (Some (JStr "Use a key function.")) (id sorting) t, w')
    /\ get_conversation (id sorting) w' = (ConversationJson conv', w')
    /\ messages conv'
       = messages sorting
           ++ [userMsg "And by length?";
               {| role := assistant;
                  content := Some (JStr "Use a key function.") |}]
    /\ t = "Sorting in place".
Proof.
  destruct (answered_turn_appends (Some "sk-key") (answers "Use a key function.")
              noon (id sorting) "A" "nd by length?"
              (Some (JStr "Use a key function.")) (saved three) three sorting)
    as (w' & conv' & t & E & _ & Hget & Hm & _ & _ & _ & Ht);
    try (vm_compute; reflexivity).
  exists w', conv', t. split; [exact E|]. split; [exact Hget|].
  split; [exact Hm|]. rewrite <- Ht.
  assert (Hc : ConversationJson conv' = ConversationJson
                 (answered noon "And by length?"
                    (Some (JStr "Use a key function.")) sorting)).
  { assert (Hw : w' = snd (post_message (Some "sk-key")
                             (answers "Use a key function.") noon (id sorting)
                             (Some "And by length?") (saved three)))
      by now rewrite E.
    rewrite Hw in Hget. vm_compute in Hget. injection Hget as <-.
    vm_compute. reflexivity. }
  injection Hc as ->. reflexivity.
Defined.

Lemma failed_turn_leaves_store_witness :
  exists e,
    post_message (Some "sk-key") overloaded noon (id sorting)
      (Some "And by length?") (saved three)
    = (InternalError e, saved three).
Proof.
  apply (failed_turn_leaves_store (Some "sk-key") overloaded noon (id sorting)
           "A" "nd by length?" (saved three) three sorting);
    try (vm_compute; reflexivity).
  do 4 right. left. eexists. reflexivity.
Defined.

Lemma upstream_error_message_witness :
  completion (Some "sk-key") overloaded [userMsg question]
  = Thrown (ApiError "Overloaded").
Proof.
  destruct (upstream_error_message "s" "k-key" overloaded [userMsg question]
              [("type", JStr "error");
               ("error", JObj [("type", JStr "overloaded_error");
                               ("message", JStr "Overloaded")])] eq_refl)
    as [H _].
  apply (H [("type", JStr "overloaded_error"); ("message", JStr "Overloaded")]
           "O"%char "verloaded"); reflexivity.
Defined.

Lemma get_conversations_complete_witness :
  exists l,
    get_conversations (saved three) = (SummariesJson l, saved three)
    /\ Permutation l (map summary (conversations three))
    /\ List.length l = 3%nat.
Proof.
  apply (get_conversations_complete (saved three) three).
  vm_compute. reflexivity.
Defined.



Lemma unique_ids_kept_witness :
  exists db',
    load_store (snd (handle (POST_conversation noon noon noon) (saved three)))
    = Some db'
    /\ NoDup (map id (conversations db')).
Proof.
  apply (unique_ids_kept (POST_conversation noon noon noon) (saved three) three).
  - vm_compute. reflexivity.
  - repeat constructor; simpl; intuition discriminate.
  - intros t1 t2 t3 [= <- _ _]. vm_compute. reflexivity.
Defined.

Lemma rename_and_turn_keep_identity_witness :
  exists db',
    load_store (snd (handle (PUT_conversation noon (id sorting) (Some "Sorting"))
                       (saved three))) = Some db'
    /\ map id (conversations db') = map id (conversations three)
    /\ map createdAt (conversations db') = map createdAt (conversations three)
    /\ Forall2 (fun c c' => exists more, messages c' = messages c ++ more)
         (conversations three) (conversations db').
Proof.
  apply (rename_and_turn_keep_identity
           (PUT_conversation noon (id sorting) (Some "Sorting")) (saved three) three).
  - vm_compute. reflexivity.
  - left. now exists noon, (id sorting), (Some "Sorting").
Defined.

Lemma updated_conversation_listed_first_witness :
  exists conv' rest,
    get_conversation (id untitled)
      (snd (handle (PUT_conversation noon (id untitled) (Some "Reversal"))
              (saved three)))
    = (ConversationJson conv',
       snd (handle (PUT_conversation noon (id untitled) (Some "Reversal"))
              (saved three)))
    /\ updatedAt conv' = toISOString noon
    /\ fst (get_conversations
              (snd (handle (PUT_conversation noon (id untitled) (Some "Reversal"))
                      (saved three))))
       = SummariesJson (summary conv' :: rest).
Proof.
  apply (updated_conversation_listed_first
           (PUT_conversation noon (id untitled) (Some "Reversal"))
           (saved three) three noon (id untitled)).
  - vm_compute. reflexivity.
  - repeat constructor.
    + exists 1714554000000. split; [vm_compute; reflexivity|reflexivity].
    + exists 1714559400000. split; [vm_compute; reflexivity|reflexivity].
    + exists 1714554000000. split; [vm_compute; reflexivity|reflexivity].
  - vm_compute. reflexivity.
  - left. exists "Reversal". split; [reflexivity|discriminate].
  - vm_compute. reflexivity.
Defined.

Lemma dates_stay_readable_witness :
  exists db',
    load_store (snd (handle (PUT_conversation noon (id untitled) (Some "Reversal"))
                       (saved three))) = Some db'
    /\ Forall dated (conversations db').
Proof.
  apply (dates_stay_readable
           (PUT_conversation noon (id untitled) (Some "Reversal"))
           (saved three) three).
  - vm_compute. reflexivity.
  - repeat constructor; vm_compute; discriminate.
  - repeat constructor. vm_compute. discriminate.
Defined.
